(** * Acoustic beats: a shallow embedding of [generate_beats_resources.py]

    The script synthesises two cosines, their half-sum, the beat envelope,
    a normalised spectrum, 16-bit PCM audio and the sliding windows of an
    animation.  Python floats are read as real numbers ([R]); Python
    integers as [Z]; numpy arrays as lists.  The single rounding that feeds
    an integer conversion (the product [data_clip * 32767.0] inside
    [write_wav]) is kept abstract as a monotone rounding operator that is
    exact on small integers.  A division that numpy answers with [nan] or
    [inf] is kept visible through [npfloat]; Python exceptions through
    [outcome].

    What the real reading carries over to the binary64 arrays of the script:
    lengths, indices and integers exactly; equalities between float
    expressions up to rounding; inequalities only where they hold with room
    to spare (a cosine is in [-1, 1], a clipped product is in the 16-bit
    range).  An inequality between two rounded quantities that can meet, as
    the half-sum against its envelope, is a fact of the formulas
    ([envelope_dominates]) and is not stated of the arrays. *)

From Stdlib Require Import Reals Lra Lia ZArith List Bool.
Import ListNotations.

Open Scope R_scope.

(** ** Exceptions and results *)

(** [ValueError], [ZeroDivisionError], [IndexError] and [WaveError] are what
    the interpreter, numpy and the [wave] module raise on the paths embedded
    below.  [InvalidParameter] and [DegenerateSignal] are the two error names
    of the design document; no line of the script raises them. *)
Inductive exn : Type :=
| ValueError
| ZeroDivisionError
| IndexError
| WaveError
| InvalidParameter
| DegenerateSignal.

Inductive outcome (A : Type) : Type :=
| Returned (a : A)
| Raised (e : exn).

Arguments Returned {A} a.
Arguments Raised {A} e.

Definition bind {A B : Type} (m : outcome A) (k : A -> outcome B) : outcome B :=
  match m with
  | Returned a => k a
  | Raised e => Raised e
  end.

Notation "x <- m ;; k" := (bind m (fun x => k))
  (at level 61, m at next level, right associativity).

(** The value of a float division, where numpy returns [nan] or an infinity
    (with a warning) instead of raising. *)
Inductive npfloat : Type :=
| Fin (r : R)
| NaN
| PosInf
| NegInf.

Definition np_divide (a b : R) : npfloat :=
  if Req_EM_T b 0 then
    if Req_EM_T a 0 then NaN
    else if Rlt_dec 0 a then PosInf else NegInf
  else Fin (a / b).

(** ** Python integers, indexing and slicing *)

(** [int(x)] on a float, and [astype] towards an integer type: truncation
    towards zero. *)
Definition py_int (x : R) : Z :=
  if Rle_dec 0 x then Int_part x else (- Int_part (- x))%Z.

Definition len {A : Type} (l : list A) : Z := Z.of_nat (length l).

(** [l[i]]: a negative index counts from the end; outside [-len, len) the
    interpreter raises [IndexError]. *)
Definition py_index {A : Type} (l : list A) (i : Z) : outcome A :=
  let i' := if (i <? 0)%Z then (i + len l)%Z else i in
  if ((0 <=? i')%Z && (i' <? len l)%Z)%bool then
    match nth_error l (Z.to_nat i') with
    | Some a => Returned a
    | None => Raised IndexError
    end
  else Raised IndexError.

(** Normalisation of one slice bound, as [slice.indices] does for step 1. *)
Definition slice_bound (n i : Z) : Z :=
  if (i <? 0)%Z then Z.max (i + n) 0 else Z.min i n.

(** [l[i:j]]. *)
Definition py_slice {A : Type} (l : list A) (i j : Z) : list A :=
  let lo := slice_bound (len l) i in
  let hi := slice_bound (len l) j in
  firstn (Z.to_nat (hi - lo)) (skipn (Z.to_nat lo) l).

(** ** Signal generator (script lines 37-43) *)

(** [np.linspace(0, stop, num, endpoint=False)]: [num] samples
    [i * (stop / num)]; a negative [num] is a [ValueError]. *)
Definition linspace0 (stop : R) (num : Z) : outcome (list R) :=
  if (num <? 0)%Z then Raised ValueError
  else Returned (map (fun i => INR i * (stop / IZR num)) (seq 0 (Z.to_nat num))).

Definition time_grid (fs duration : R) : outcome (list R) :=
  linspace0 duration (py_int (fs * duration)).

(** Elementwise sum of two arrays of one shape. *)
Fixpoint np_add (a b : list R) : list R :=
  match a, b with
  | x :: a', y :: b' => (x + y) :: np_add a' b'
  | _, _ => []
  end.

Definition tone (f : R) (t : list R) : list R :=
  map (fun ti => cos (2 * PI * f * ti)) t.

Definition x_sum_of (x1 x2 : list R) : list R :=
  map (fun s => 0.5 * s) (np_add x1 x2).

Definition envelope_at (delta_f ti : R) : R := Rabs (cos (PI * delta_f * ti)).

Definition envelope_of (delta_f : R) (t : list R) : list R :=
  map (envelope_at delta_f) t.

Record signals : Type := mkSignals {
  t : list R;
  x1 : list R;
  x2 : list R;
  x_sum : list R;
  delta_f : R;
  envelope : list R
}.

Definition generate (fs duration f1 f2 : R) : outcome signals :=
  t <- time_grid fs duration ;;
  let x1 := tone f1 t in
  let x2 := tone f2 t in
  let delta_f := Rabs (f2 - f1) in
  Returned (mkSignals t x1 x2 (x_sum_of x1 x2) delta_f (envelope_of delta_f t)).

(** ** Window sampler (script lines 97-120) *)

(** [step = max(1, (len(t)-window)//frames)]; [//] on integers is floor
    division and raises on a zero divisor. *)
Definition step_of (n window frames : Z) : outcome Z :=
  if (frames =? 0)%Z then Raised ZeroDivisionError
  else Returned (Z.max 1 ((n - window) / frames)).

(** The two index assignments of [update]: lines 113-115. *)
Definition frame_bounds (n window step frame : Z) : Z * Z :=
  let i := (frame * step)%Z in
  let j := if (i + window <=? n)%Z then (i + window)%Z else n in
  let i := if (j - i =? window)%Z then i else (n - window)%Z in
  (i, j).

Record frame_data : Type := mkFrame {
  seg_t : list R;
  seg_sum : list R;
  seg_env : list R;
  seg_envm : list R
}.

Definition update (t x_sum envelope : list R) (window step frame : Z)
  : outcome frame_data :=
  let '(i, j) := frame_bounds (len t) window step frame in
  t_i <- py_index t i ;;
  Returned (mkFrame (map (fun v => v - t_i) (py_slice t i j))
                    (py_slice x_sum i j)
                    (py_slice envelope i j)
                    (map Ropp (py_slice envelope i j))).

(** [range(n)]. *)
Definition py_range (n : Z) : list Z := map Z.of_nat (seq 0 (Z.to_nat n)).

Fixpoint mapM {A B : Type} (f : A -> outcome B) (l : list A)
  : outcome (list B) :=
  match l with
  | [] => Returned []
  | a :: l' => b <- f a ;; bs <- mapM f l' ;; Returned (b :: bs)
  end.

(** The frames of the animation: line 99, then [update(k)] for each [k] of
    [range(frames)], which is how [FuncAnimation] drives [update]. *)
Definition window_sampler (t x_sum envelope : list R) (window frames : Z)
  : outcome (list frame_data) :=
  step <- step_of (len t) window frames ;;
  mapM (update t x_sum envelope window step) (py_range frames).

(** ** PCM encoder (script lines 46-53) *)

(** The rounding of one float operation.  Round-to-nearest of binary64 is
    monotone and leaves every integer of the 16-bit range unchanged; exact
    arithmetic is another instance. *)
Class Rounding (fl : R -> R) : Prop := {
  fl_mono : forall x y, x <= y -> fl x <= fl y;
  fl_exact : forall z : Z, (-32767 <= z <= 32767)%Z -> fl (IZR z) = IZR z
}.

(** [np.clip(x, lo, hi)] is [minimum(maximum(x, lo), hi)]. *)
Definition np_clip (x lo hi : R) : R := Rmin (Rmax x lo) hi.

(** A two's-complement 16-bit integer holding [z] modulo [2^16]. *)
Definition wrap16 (z : Z) : Z := ((z + 32768) mod 65536 - 32768)%Z.

Definition astype_int16 (x : R) : Z := wrap16 (py_int x).

(** Lines 47-48: [int_data]. *)
Definition int_data_of (fl : R -> R) (data : list R) : list Z :=
  map (fun x => astype_int16 (fl (np_clip x (-1) 1 * 32767))) data.

(** [tobytes] of an int16 array on a little-endian machine. *)
Definition int16_bytes (z : Z) : list Z :=
  let u := (z mod 65536)%Z in [(u mod 256)%Z; (u / 256)%Z].

Definition tobytes (l : list Z) : list Z := flat_map int16_bytes l.

Record wav_file : Type := mkWav {
  nchannels : Z;
  sampwidth : Z;
  framerate : Z;
  frames : list Z
}.

(** [setframerate] refuses a rate that is not positive.  The file header
    holds the rate, the byte rate [2 * sr] and the data length plus 36 in
    unsigned 32-bit fields; packing it fails for a rate of [2^31] or more
    and for [2^31 - 18] samples or more.  That failure is outside this
    definition: the statements on whole runs keep below both bounds by
    hypothesis. *)
Definition write_wav (fl : R -> R) (data : list R) (sr : Z) : outcome wav_file :=
  let int_data := int_data_of fl data in
  if (sr <=? 0)%Z then Raised WaveError
  else Returned (mkWav 1 2 sr (tobytes int_data)).

(** Reading the frames back as signed little-endian 16-bit samples, the way
    a player of the file does; used to state that nothing is lost between
    [int_data] and the bytes written. *)
Fixpoint read_int16 (bs : list Z) : list Z :=
  match bs with
  | b0 :: b1 :: rest => wrap16 (b0 + 256 * b1) :: read_int16 rest
  | _ => []
  end.

(** ** Spectrum (script lines 84-87) *)

Fixpoint big_sum (f : nat -> R) (n : nat) : R :=
  match n with
  | O => 0
  | S m => big_sum f m + f m
  end.

Record complex : Type := mkC { re : R; im : R }.

Definition np_abs_c (z : complex) : R := sqrt (re z * re z + im z * im z).

(** The crop-or-zero-pad that [rfft] applies to bring its input to [n]
    points. *)
Definition pad_to (n : nat) (a : list R) : list R :=
  firstn n a ++ repeat 0 (n - length a).

(** Bin [k] of the [n]-point discrete Fourier transform,
    [sum_m a_m * exp(-2 pi i m k / n)]. *)
Definition dft_bin (a : list R) (n k : nat) : complex :=
  mkC (big_sum (fun m => nth m a 0 * cos (2 * PI * INR m * INR k / INR n)) n)
      (big_sum (fun m => - (nth m a 0 * sin (2 * PI * INR m * INR k / INR n))) n).

(** [np.fft.rfft(a, n=n)]: bins [0 .. n//2]. *)
Definition rfft (a : list R) (n : Z) : outcome (list complex) :=
  if (n <? 1)%Z then Raised ValueError
  else
    let N := Z.to_nat n in
    Returned (map (dft_bin (pad_to N a) N) (seq 0 (N / 2 + 1))).

(** Python's [/] on numbers. *)
Definition py_div (a b : R) : outcome R :=
  if Req_EM_T b 0 then Raised ZeroDivisionError else Returned (a / b).

(** [np.fft.rfftfreq(n, d)]: [val = 1.0/(n*d)], bins [k * val]. *)
Definition rfftfreq (n : Z) (d : R) : outcome (list R) :=
  val <- py_div 1 (IZR n * d) ;;
  Returned (map (fun k => INR k * val) (seq 0 (Z.to_nat (n / 2 + 1)))).

(** [np.max] of a one-dimensional array. *)
Definition np_max (l : list R) : outcome R :=
  match l with
  | [] => Raised ValueError
  | x :: l' => Returned (fold_left Rmax l' x)
  end.

Record spectrum_data : Type := mkSpectrum {
  freqs : list R;
  amp : list npfloat
}.

Definition spectrum (fs : R) (Nfft : Z) (x_sum : list R) : outcome spectrum_data :=
  X <- rfft (py_slice x_sum 0 Nfft) Nfft ;;
  d <- py_div 1 fs ;;
  freqs <- rfftfreq Nfft d ;;
  m <- np_max (map np_abs_c X) ;;
  Returned (mkSpectrum freqs (map (fun z => np_divide (np_abs_c z) m) X)).

(** ** Audio files (script lines 56-58) *)

(** [c * x] on an array. *)
Definition scaled (c : R) (x : list R) : list R := map (fun v => c * v) x.

Record audio_files : Type := mkAudio {
  tone_f1 : wav_file;
  tone_f2 : wav_file;
  beat_signal : wav_file
}.

Definition write_audio (fl : R -> R) (s : signals) (fs : Z)
  : outcome audio_files :=
  w1 <- write_wav fl (scaled 0.9 (x1 s)) fs ;;
  w2 <- write_wav fl (scaled 0.9 (x2 s)) fs ;;
  w3 <- write_wav fl (scaled 0.9 (x_sum s)) fs ;;
  Returned (mkAudio w1 w2 w3).

(** ** Figures (script lines 62-92) *)

Record series (B : Type) : Type := mkSeries {
  xs : list R;
  ys : list B
}.

Arguments mkSeries {B} xs ys.
Arguments xs {B} s.
Arguments ys {B} s.

(** [plt.plot(x, y)]: the two sequences must have one length, or the call
    raises [ValueError]. *)
Definition plt_plot {B : Type} (x : list R) (y : list B) : outcome (series B) :=
  if (length x =? length y)%nat then Returned (mkSeries x y)
  else Raised ValueError.

(** Lines 62-66: the first 50 ms of the two tones and of their half-sum. *)
Definition short_window_figure (s : signals) (fs : Z)
  : outcome (list (series R)) :=
  let idx_short := py_int (0.05 * IZR fs) in
  a <- plt_plot (py_slice (t s) 0 idx_short) (py_slice (x1 s) 0 idx_short) ;;
  b <- plt_plot (py_slice (t s) 0 idx_short) (py_slice (x2 s) 0 idx_short) ;;
  c <- plt_plot (py_slice (t s) 0 idx_short) (py_slice (x_sum s) 0 idx_short) ;;
  Returned [a; b; c].

(** Lines 73-77: two seconds of the half-sum between the envelope and its
    opposite. *)
Definition beats_figure (s : signals) (fs : Z) : outcome (list (series R)) :=
  let idx_long := py_int (2.0 * IZR fs) in
  a <- plt_plot (py_slice (t s) 0 idx_long) (py_slice (x_sum s) 0 idx_long) ;;
  b <- plt_plot (py_slice (t s) 0 idx_long) (py_slice (envelope s) 0 idx_long) ;;
  c <- plt_plot (py_slice (t s) 0 idx_long)
                (map Ropp (py_slice (envelope s) 0 idx_long)) ;;
  Returned [a; b; c].

(** Line 84: [Nfft = 1<<16]. *)
Definition Nfft : Z := Z.shiftl 1 16.

(** Lines 85-89: the spectrum and its plot. *)
Definition spectrum_figure (s : signals) (fs : Z)
  : outcome (spectrum_data * series npfloat) :=
  sp <- spectrum (IZR fs) Nfft (x_sum s) ;;
  p <- plt_plot (freqs sp) (amp sp) ;;
  Returned (sp, p).

(** ** The whole script *)

Record resources : Type := mkResources {
  r_signals : signals;
  r_audio : audio_files;
  r_short : list (series R);
  r_beats : list (series R);
  r_spectrum : spectrum_data;
  r_xlim : R;
  r_frames : list frame_data
}.

(** The computations of the script in the order of its lines, for the four
    editable parameters; 40 is the frame count of line 97.  Directories,
    rendering and the writing of the files are left out. *)
Definition main (fl : R -> R) (fs : Z) (duration f1 f2 : R)
  : outcome resources :=
  s <- generate (IZR fs) duration f1 f2 ;;
  au <- write_audio fl s fs ;;
  fig1 <- short_window_figure s fs ;;
  fig2 <- beats_figure s fs ;;
  sp <- spectrum_figure s fs ;;
  let window := py_int (0.05 * IZR fs) in
  step <- step_of (len (t s)) window 40 ;;
  xlim <- py_div (IZR window) (IZR fs) ;;
  frs <- mapM (update (t s) (x_sum s) (envelope s) window step) (py_range 40) ;;
  Returned (mkResources s au fig1 fig2 (fst sp) xlim frs).

(** * Properties *)

(** ** Slices and indices *)

Lemma slice_bound_inside (n i : Z) :
  (0 <= i <= n)%Z -> slice_bound n i = i.
Proof.
  intros H. unfold slice_bound.
  destruct (Z.ltb_spec i 0); lia.
Qed.

Lemma py_slice_length {A : Type} (l : list A) (i j : Z) :
  (0 <= i)%Z -> (i <= j)%Z -> (j <= len l)%Z ->
  len (py_slice l i j) = (j - i)%Z.
Proof.
  intros Hi Hij Hj. unfold py_slice, len in *.
  rewrite !slice_bound_inside by (unfold len; lia).
  rewrite length_firstn, length_skipn. lia.
Qed.

Lemma py_index_inside {A : Type} (l : list A) (i : Z) :
  (0 <= i < len l)%Z -> exists a, py_index l i = Returned a.
Proof.
  intros H. unfold py_index.
  destruct (Z.ltb_spec i 0); [lia|].
  destruct (Z.leb_spec 0 i); [|lia].
  destruct (Z.ltb_spec i (len l)); [|lia]. simpl.
  destruct (nth_error l (Z.to_nat i)) eqn:E; [eauto|].
  apply nth_error_None in E. unfold len in H. lia.
Qed.

(** ** Window sampler *)

(** The start index computed by lines 113-115 is the clamped product, for
    all integers. *)
Lemma frame_bounds_start (n window step frame : Z) :
  fst (frame_bounds n window step frame) = Z.min (frame * step) (n - window).
Proof.
  unfold frame_bounds. cbn [fst].
  destruct (Z.leb_spec (frame * step + window) n).
  - replace (frame * step + window - frame * step)%Z with window by lia.
    rewrite Z.eqb_refl. lia.
  - destruct (Z.eqb_spec (n - frame * step) window); lia.
Qed.

Lemma frame_bounds_stop (n window step frame : Z) :
  snd (frame_bounds n window step frame)
  = (fst (frame_bounds n window step frame) + window)%Z.
Proof.
  unfold frame_bounds. cbn [fst snd].
  destruct (Z.leb_spec (frame * step + window) n).
  - replace (frame * step + window - frame * step)%Z with window by lia.
    rewrite Z.eqb_refl. lia.
  - destruct (Z.eqb_spec (n - frame * step) window); lia.
Qed.

(** What one call of [update] computes when the window fits, for the step
    of line 99. *)
Lemma frame_of_update
  (t x_sum envelope : list R) (W F k : Z) :
  length x_sum = length t -> length envelope = length t ->
  (0 <= W <= len t)%Z -> (0 < F)%Z -> (0 <= k < F)%Z ->
  exists step,
    step_of (len t) W F = Returned step /\
    step = Z.max 1 ((len t - W) / F) /\
    let i := fst (frame_bounds (len t) W step k) in
    let j := snd (frame_bounds (len t) W step k) in
    i = Z.min (k * step) (len t - W) /\
    j = (i + W)%Z /\
    (0 <= i <= len t - W)%Z /\
    fst (frame_bounds (len t) W step 0) = 0%Z /\
    len (py_slice t i j) = W /\
    len (py_slice x_sum i j) = W /\
    len (py_slice envelope i j) = W /\
    ((0 < W)%Z ->
     exists fr, update t x_sum envelope W step k = Returned fr /\
       seg_sum fr = py_slice x_sum i j /\
       seg_env fr = py_slice envelope i j /\
       len (seg_t fr) = W /\ len (seg_sum fr) = W /\
       len (seg_env fr) = W /\ len (seg_envm fr) = W).
Proof.
  intros Hx He HW HF Hk.
  exists (Z.max 1 ((len t - W) / F)).
  unfold step_of. destruct (Z.eqb_spec F 0); [lia|].
  split; [reflexivity|]. split; [reflexivity|].
  set (step := Z.max 1 ((len t - W) / F)).
  assert (Hstep : (1 <= step)%Z) by (unfold step; lia).
  assert (Hi : fst (frame_bounds (len t) W step k)
               = Z.min (k * step) (len t - W)) by apply frame_bounds_start.
  assert (Hj := frame_bounds_stop (len t) W step k).
  assert (H0 : fst (frame_bounds (len t) W step 0) = 0%Z).
  { rewrite frame_bounds_start. lia. }
  cbv zeta.
  set (i := fst (frame_bounds (len t) W step k)) in *.
  set (j := snd (frame_bounds (len t) W step k)) in *.
  assert (Hks : (0 <= k * step)%Z) by nia.
  assert (Hrange : (0 <= i <= len t - W)%Z) by lia.
  assert (Lt : len (py_slice t i j) = W).
  { rewrite py_slice_length; lia. }
  assert (Lx : len (py_slice x_sum i j) = W).
  { rewrite py_slice_length; unfold len in *; try lia. }
  assert (Le : len (py_slice envelope i j) = W).
  { rewrite py_slice_length; unfold len in *; try lia. }
  repeat (split; [assumption || lia|]).
  intros HWpos.
  destruct (py_index_inside t i) as [ti Hti]; [lia|].
  unfold update.
  rewrite (surjective_pairing (frame_bounds (len t) W step k)).
  fold i j. rewrite Hti. cbn [bind].
  eexists. split; [reflexivity|]. cbn [seg_t seg_sum seg_env seg_envm].
  unfold len in *. rewrite !length_map. tauto.
Qed.

(** ** Truncation *)

Lemma Int_part_bounds (x : R) : IZR (Int_part x) <= x < IZR (Int_part x) + 1.
Proof.
  destruct (base_Int_part x) as [H1 H2]. lra.
Qed.

Lemma Int_part_unique (x : R) (z : Z) :
  IZR z <= x < IZR z + 1 -> Int_part x = z.
Proof.
  intros H. symmetry. apply Int_part_spec. lra.
Qed.

Lemma Int_part_IZR (z : Z) : Int_part (IZR z) = z.
Proof. apply Int_part_unique. lra. Qed.

Lemma py_int_nonneg (x : R) : 0 <= x -> py_int x = Int_part x.
Proof.
  intros H. unfold py_int. destruct (Rle_dec 0 x); [reflexivity|contradiction].
Qed.

Lemma py_int_IZR (z : Z) : py_int (IZR z) = z.
Proof.
  unfold py_int. destruct (Rle_dec 0 (IZR z)).
  - apply Int_part_IZR.
  - rewrite <- opp_IZR, Int_part_IZR. lia.
Qed.

Lemma Int_part_nonneg (x : R) : 0 <= x -> (0 <= Int_part x)%Z.
Proof.
  intros H. destruct (Int_part_bounds x) as [_ H2].
  apply Z.lt_succ_r. apply lt_IZR. rewrite succ_IZR. lra.
Qed.

(** ** Time grid *)

Lemma nth_map_seq {B : Type} (f : nat -> B) (d : B) (n i : nat) :
  (i < n)%nat -> nth i (map f (seq 0 n)) d = f i.
Proof.
  intros H.
  rewrite (nth_indep _ d (f 0%nat)) by (rewrite length_map, length_seq; exact H).
  rewrite map_nth. rewrite seq_nth by exact H. reflexivity.
Qed.

Lemma linspace0_returns (stop : R) (num : Z) :
  (0 <= num)%Z ->
  exists t, linspace0 stop num = Returned t /\
    len t = num /\
    forall i, (i < length t)%nat -> nth i t 0 = INR i * (stop / IZR num).
Proof.
  intros H. unfold linspace0.
  destruct (Z.ltb_spec num 0); [lia|].
  eexists. split; [reflexivity|]. split.
  - unfold len. rewrite length_map, length_seq. lia.
  - intros i Hi. rewrite length_map, length_seq in Hi.
    apply (nth_map_seq (fun j => INR j * (stop / IZR num))). exact Hi.
Qed.

(** Where the sample count [n = fs * duration] is a whole number, as with
    the constants of the script, line 38 does space the grid by [1 / fs]:
    [n] points, the [i]-th at [i / fs]. *)
Lemma time_grid_whole_count (fs duration : R) (n : Z) :
  0 < fs -> 0 < duration -> fs * duration = IZR n ->
  exists t, time_grid fs duration = Returned t /\
    len t = n /\
    forall i, (i < length t)%nat -> nth i t 0 = INR i / fs.
Proof.
  intros Hfs Hd Hn.
  assert (Hp : 0 < IZR n) by (rewrite <- Hn; apply Rmult_lt_0_compat; lra).
  unfold time_grid. rewrite Hn, py_int_IZR.
  destruct (linspace0_returns duration n) as [t [Ht [Hlen Hnth]]].
  { apply le_IZR. lra. }
  exists t. split; [exact Ht|]. split; [exact Hlen|].
  intros i Hi. rewrite (Hnth i Hi), <- Hn. field. split; lra.
Qed.

(** C2.  The grid of line 38 at rate 1 and duration 2.5: two points, as
    [floor(1 * 2.5)] asks, the first at 0, but the second at 1.25 where the
    rate puts it at 1/1.  [linspace] divides the duration by the truncated
    count, so the spacing is [1 / fs] only for a whole count, while the
    rest of the script (the rate written in the audio header, the frequency
    axis of the spectrum, the width of the animation window) takes it to be
    [1 / fs] always. *)
Lemma time_grid_not_over_rate :
  0 < 1 /\ 0 < 5 / 2 /\
  time_grid 1 (5 / 2) = Returned [0 * (5 / 2 / 2); 1 * (5 / 2 / 2)] /\
  nth 1 [0 * (5 / 2 / 2); 1 * (5 / 2 / 2)] 0 <> INR 1 / 1.
Proof.
  split; [lra|]. split; [lra|]. split.
  - unfold time_grid.
    assert (E : py_int (1 * (5 / 2)) = 2%Z).
    { rewrite py_int_nonneg by lra. apply Int_part_unique. simpl. lra. }
    rewrite E. reflexivity.
  - simpl. lra.
Qed.

(** ** Tones, composite signal and envelope *)

Lemma np_add_length (a b : list R) :
  length a = length b -> length (np_add a b) = length a.
Proof.
  revert b. induction a as [|x a IH]; intros [|y b] H; simpl in *;
    try reflexivity; try discriminate.
  f_equal. apply IH. lia.
Qed.

Lemma np_add_nth (a b : list R) (i : nat) :
  length a = length b ->
  nth i (np_add a b) 0 = nth i a 0 + nth i b 0.
Proof.
  revert b i. induction a as [|x a IH]; intros [|y b] i H; simpl in *;
    try discriminate.
  - destruct i; lra.
  - destruct i; [reflexivity|]. apply IH. lia.
Qed.

Lemma tone_length (f : R) (t : list R) : length (tone f t) = length t.
Proof. apply length_map. Qed.

Lemma nth_map_R (g : R -> R) (l : list R) (i : nat) :
  (i < length l)%nat -> nth i (map g l) 0 = g (nth i l 0).
Proof.
  intros H. rewrite (nth_indep _ 0 (g 0)) by (rewrite length_map; exact H).
  apply map_nth.
Qed.

Lemma x_sum_of_length (x1 x2 : list R) :
  length x1 = length x2 -> length (x_sum_of x1 x2) = length x1.
Proof.
  intros H. unfold x_sum_of. rewrite length_map. apply np_add_length, H.
Qed.

Lemma x_sum_of_nth (x1 x2 : list R) (i : nat) :
  length x1 = length x2 -> (i < length x1)%nat ->
  nth i (x_sum_of x1 x2) 0 = 0.5 * (nth i x1 0 + nth i x2 0).
Proof.
  intros H Hi. unfold x_sum_of.
  rewrite nth_map_R by (rewrite np_add_length; assumption).
  rewrite np_add_nth by exact H. reflexivity.
Qed.

Lemma generate_fields (fs duration f1 f2 : R) (s : signals) :
  generate fs duration f1 f2 = Returned s ->
  x1 s = tone f1 (t s) /\ x2 s = tone f2 (t s) /\
  x_sum s = x_sum_of (x1 s) (x2 s) /\
  delta_f s = Rabs (f2 - f1) /\
  envelope s = envelope_of (delta_f s) (t s) /\
  time_grid fs duration = Returned (t s).
Proof.
  unfold generate. destruct (time_grid fs duration) as [g|e]; cbn [bind];
    intros H; inversion H; subst; cbn; tauto.
Qed.

Lemma generate_returns (fs duration f1 f2 : R) :
  0 < fs -> 0 < duration ->
  exists s, generate fs duration f1 f2 = Returned s.
Proof.
  intros Hfs Hd.
  assert (Hp : 0 <= fs * duration) by (apply Rmult_le_pos; lra).
  destruct (linspace0_returns duration (py_int (fs * duration)))
    as [g [Hg _]].
  { rewrite py_int_nonneg by exact Hp. apply Int_part_nonneg, Hp. }
  unfold generate, time_grid. rewrite Hg. cbn [bind]. eauto.
Qed.

(** The three sample sequences of a generated set, point by point. *)
Lemma generated_samples (fs duration f1 f2 : R) (s : signals) :
  generate fs duration f1 f2 = Returned s ->
  length (x_sum s) = length (t s) /\
  forall i, (i < length (t s))%nat ->
    nth i (x1 s) 0 = cos (2 * PI * f1 * nth i (t s) 0) /\
    nth i (x2 s) 0 = cos (2 * PI * f2 * nth i (t s) 0) /\
    nth i (x_sum s) 0 = 0.5 * (nth i (x1 s) 0 + nth i (x2 s) 0).
Proof.
  intros H. destruct (generate_fields _ _ _ _ _ H) as [E1 [E2 [Es _]]].
  assert (L : length (x1 s) = length (x2 s)).
  { rewrite E1, E2, !tone_length. reflexivity. }
  assert (L1 : length (x1 s) = length (t s)) by (rewrite E1; apply tone_length).
  split.
  - rewrite Es, x_sum_of_length by exact L. exact L1.
  - intros i Hi. split; [|split].
    + rewrite E1. unfold tone.
      apply (nth_map_R (fun ti => cos (2 * PI * f1 * ti))), Hi.
    + rewrite E2. unfold tone.
      apply (nth_map_R (fun ti => cos (2 * PI * f2 * ti))), Hi.
    + rewrite Es. apply x_sum_of_nth; [exact L | rewrite L1; exact Hi].
Qed.

(** C3. The composite signal of a generated set is, point by point, half
    the sum of the two cosines taken on the grid; it is as long as the grid
    and each of its values lies in [-1, 1]. *)
Theorem composite_signal_bounded (fs duration f1 f2 : R) (s : signals) :
  generate fs duration f1 f2 = Returned s ->
  length (x_sum s) = length (t s) /\
  forall i, (i < length (t s))%nat ->
    nth i (x1 s) 0 = cos (2 * PI * f1 * nth i (t s) 0) /\
    nth i (x2 s) 0 = cos (2 * PI * f2 * nth i (t s) 0) /\
    nth i (x_sum s) 0 = 0.5 * (nth i (x1 s) 0 + nth i (x2 s) 0) /\
    -1 <= nth i (x_sum s) 0 <= 1.
Proof.
  intros H. destruct (generated_samples _ _ _ _ _ H) as [L Hs].
  split; [exact L|]. intros i Hi. destruct (Hs i Hi) as [A1 [A2 As]].
  repeat split; try assumption; rewrite As, A1, A2.
  - pose proof (COS_bound (2 * PI * f1 * nth i (t s) 0)).
    pose proof (COS_bound (2 * PI * f2 * nth i (t s) 0)). lra.
  - pose proof (COS_bound (2 * PI * f1 * nth i (t s) 0)).
    pose proof (COS_bound (2 * PI * f2 * nth i (t s) 0)). lra.
Qed.

Lemma generate_unit :
  generate 1 1 1 1
  = Returned (mkSignals [0 * (1 / 1)]
                (tone 1 [0 * (1 / 1)]) (tone 1 [0 * (1 / 1)])
                (x_sum_of (tone 1 [0 * (1 / 1)]) (tone 1 [0 * (1 / 1)]))
                (Rabs (1 - 1))
                (envelope_of (Rabs (1 - 1)) [0 * (1 / 1)])).
Proof.
  unfold generate, time_grid. rewrite Rmult_1_r.
  rewrite (py_int_IZR 1). reflexivity.
Qed.

Lemma composite_signal_bounded_witness :
  length (x_sum_of (tone 1 [0 * (1 / 1)]) (tone 1 [0 * (1 / 1)]))
  = length [0 * (1 / 1)] /\
  -1 <= nth 0 (x_sum_of (tone 1 [0 * (1 / 1)]) (tone 1 [0 * (1 / 1)])) 0 <= 1.
Proof.
  destruct (composite_signal_bounded 1 1 1 1 _ generate_unit) as [L H].
  split; [exact L|].
  exact (proj2 (proj2 (proj2 (H 0%nat (Nat.lt_0_succ 0))))).
Defined.

(** Half the sum of two cosines is the product of the carrier and of the
    cosine of half the difference of the arguments. *)
Lemma half_sum_cos (f1 f2 ti : R) :
  0.5 * (cos (2 * PI * f1 * ti) + cos (2 * PI * f2 * ti))
  = cos (PI * (f2 - f1) * ti) * cos (PI * (f1 + f2) * ti).
Proof.
  rewrite (Rplus_comm (cos _)).
  rewrite (form1 (2 * PI * f2 * ti) (2 * PI * f1 * ti)).
  replace ((2 * PI * f2 * ti - 2 * PI * f1 * ti) / 2)
    with (PI * (f2 - f1) * ti) by field.
  replace ((2 * PI * f2 * ti + 2 * PI * f1 * ti) / 2)
    with (PI * (f1 + f2) * ti) by field.
  lra.
Qed.

Lemma envelope_at_abs (d ti : R) :
  envelope_at (Rabs d) ti = Rabs (cos (PI * d * ti)).
Proof.
  unfold envelope_at, Rabs at 2. destruct (Rcase_abs d).
  - replace (PI * - d * ti) with (- (PI * d * ti)) by ring.
    rewrite cos_neg. reflexivity.
  - reflexivity.
Qed.

(** The formulas, in exact arithmetic: at every instant the slow cosine
    bounds the half-sum.  The two meet wherever the carrier is at 1 or -1,
    so the rounded arrays of the script can sit on either side there. *)
Lemma envelope_dominates (f1 f2 ti : R) :
  Rabs (0.5 * (cos (2 * PI * f1 * ti) + cos (2 * PI * f2 * ti)))
  <= envelope_at (Rabs (f2 - f1)) ti.
Proof.
  rewrite half_sum_cos, envelope_at_abs, Rabs_mult.
  pose proof (Rabs_pos (cos (PI * (f2 - f1) * ti))) as Hp.
  assert (Hc : Rabs (cos (PI * (f1 + f2) * ti)) <= 1).
  { apply Rabs_le. apply COS_bound. }
  nra.
Qed.

(** C8. For a positive beat frequency every envelope value lies in [0, 1]
    and the envelope repeats after [1 / delta_f]. *)
Theorem envelope_range_period (d : R) :
  0 < d ->
  (forall ti, 0 <= envelope_at d ti <= 1) /\
  (forall ti, envelope_at d (ti + 1 / d) = envelope_at d ti) /\
  (forall t, Forall (fun e => 0 <= e <= 1) (envelope_of d t)).
Proof.
  intros Hd.
  assert (B : forall ti, 0 <= envelope_at d ti <= 1).
  { intros ti. unfold envelope_at. split; [apply Rabs_pos|].
    apply Rabs_le, COS_bound. }
  split; [exact B|]. split.
  - intros ti. unfold envelope_at.
    replace (PI * d * (ti + 1 / d)) with (PI * d * ti + PI) by (field; lra).
    rewrite neg_cos, Rabs_Ropp. reflexivity.
  - intros t. unfold envelope_of. apply Forall_forall.
    intros e He. apply in_map_iff in He. destruct He as [ti [<- _]]. apply B.
Qed.

Lemma envelope_range_period_witness :
  envelope_at 4 (0 + 1 / 4) = envelope_at 4 0.
Proof.
  exact (proj1 (proj2 (envelope_range_period 4 ltac:(lra))) 0).
Defined.

(** ** PCM encoder *)

#[export] Instance exact_rounding : Rounding (fun r => r).
Proof. split; intros; [assumption | reflexivity]. Qed.

Lemma np_clip_unit (x : R) : -1 <= np_clip x (-1) 1 <= 1.
Proof.
  unfold np_clip, Rmin, Rmax.
  destruct (Rle_dec x (-1)); destruct (Rle_dec _ 1); lra.
Qed.

Lemma np_clip_inside (x : R) : -1 <= x <= 1 -> np_clip x (-1) 1 = x.
Proof.
  intros H. unfold np_clip, Rmin, Rmax.
  destruct (Rle_dec x (-1)); destruct (Rle_dec _ 1); lra.
Qed.

Lemma wrap16_inside (z : Z) : (-32768 <= z <= 32767)%Z -> wrap16 z = z.
Proof.
  intros H. unfold wrap16. rewrite Z.mod_small; lia.
Qed.


Section Encoder.

Context (fl : R -> R) `{HR : Rounding fl}.

Lemma scaled_range (c : R) :
  -1 <= c <= 1 -> -32767 <= fl (c * 32767) <= 32767.
Proof.
  intros H.
  pose proof (fl_exact (fl := fl) 32767 ltac:(lia)) as Hhi.
  pose proof (fl_exact (fl := fl) (-32767) ltac:(lia)) as Hlo.
  split.
  - apply Rle_trans with (fl (IZR (-32767))); [rewrite Hlo; lra|].
    apply fl_mono. lra.
  - apply Rle_trans with (fl (IZR 32767)); [|rewrite Hhi; lra].
    apply fl_mono. lra.
Qed.

Lemma py_int_range (v : R) :
  -32767 <= v <= 32767 -> (-32767 <= py_int v <= 32767)%Z.
Proof.
  intros H. unfold py_int. destruct (Rle_dec 0 v).
  - pose proof (Int_part_nonneg v r).
    destruct (Int_part_bounds v) as [B _].
    split; [lia|]. apply le_IZR. lra.
  - assert (Hn : 0 <= - v) by lra.
    pose proof (Int_part_nonneg (- v) Hn).
    destruct (Int_part_bounds (- v)) as [B _].
    split; [|lia]. apply le_IZR. rewrite opp_IZR. lra.
Qed.

(** One sample: the integer written for [x]. *)
Lemma sample_range (x : R) :
  (-32767 <= py_int (fl (np_clip x (-1) 1 * 32767)) <= 32767)%Z.
Proof. apply py_int_range, scaled_range, np_clip_unit. Qed.

Lemma sample_no_wrap (x : R) :
  astype_int16 (fl (np_clip x (-1) 1 * 32767))
  = py_int (fl (np_clip x (-1) 1 * 32767)).
Proof.
  unfold astype_int16. apply wrap16_inside.
  pose proof (sample_range x). lia.
Qed.



Lemma int_data_of_nth (data : list R) (i : nat) :
  (i < length data)%nat ->
  nth i (int_data_of fl data) 0%Z
  = py_int (fl (np_clip (nth i data 0) (-1) 1 * 32767)).
Proof.
  intros Hi. unfold int_data_of.
  rewrite (nth_indep _ 0%Z
             (astype_int16 (fl (np_clip 0 (-1) 1 * 32767))))
    by (rewrite length_map; exact Hi).
  rewrite (map_nth (fun x => astype_int16 (fl (np_clip x (-1) 1 * 32767)))).
  apply sample_no_wrap.
Qed.

Lemma int_data_of_range (data : list R) :
  Forall (fun z => (-32767 <= z <= 32767)%Z) (int_data_of fl data).
Proof.
  unfold int_data_of. apply Forall_forall. intros z Hz.
  apply in_map_iff in Hz. destruct Hz as [x [<- _]].
  rewrite sample_no_wrap. apply sample_range.
Qed.

End Encoder.

Lemma int16_bytes_read (z : Z) (rest : list Z) :
  (-32768 <= z <= 32767)%Z ->
  read_int16 (int16_bytes z ++ rest) = z :: read_int16 rest.
Proof.
  intros H. unfold int16_bytes. cbn [app read_int16]. f_equal.
  rewrite (Z.add_comm _ (256 * _)), <- Z.div_mod by lia.
  unfold wrap16.
  destruct (Z_lt_le_dec z 0).
  - replace (z mod 65536)%Z with (z + 65536)%Z.
    + replace (z + 65536 + 32768)%Z with (z + 32768 + 1 * 65536)%Z by lia.
      rewrite Z.mod_add by lia. rewrite Z.mod_small; lia.
    + apply Z.mod_unique with (q := (-1)%Z); lia.
  - rewrite (Z.mod_small z) by lia. rewrite Z.mod_small; lia.
Qed.

Lemma tobytes_read (l : list Z) :
  Forall (fun z => (-32768 <= z <= 32767)%Z) l ->
  read_int16 (tobytes l) = l.
Proof.
  induction 1 as [|z l Hz _ IH]; [reflexivity|].
  unfold tobytes in *. cbn [flat_map].
  rewrite int16_bytes_read by exact Hz. f_equal. exact IH.
Qed.

Lemma tobytes_length (l : list Z) : length (tobytes l) = (2 * length l)%nat.
Proof.
  induction l as [|z l IH]; [reflexivity|].
  unfold tobytes in *. cbn [flat_map]. rewrite length_app, IH.
  simpl. lia.
Qed.


Lemma int_data_example :
  int_data_of (fun r => r) [2; -3; 0] = [32767%Z; (-32767)%Z; 0%Z].
Proof.
  unfold int_data_of. cbn [map].
  rewrite !(sample_no_wrap (fun r => r)).
  assert (E1 : np_clip 2 (-1) 1 * 32767 = IZR 32767).
  { unfold np_clip, Rmin, Rmax.
    destruct (Rle_dec 2 (-1)); destruct (Rle_dec _ 1); lra. }
  assert (E2 : np_clip (-3) (-1) 1 * 32767 = IZR (-32767)).
  { unfold np_clip, Rmin, Rmax.
    destruct (Rle_dec (-3) (-1)); destruct (Rle_dec _ 1); lra. }
  assert (E3 : np_clip 0 (-1) 1 * 32767 = IZR 0).
  { rewrite np_clip_inside; lra. }
  rewrite E1, E2, E3, !py_int_IZR. reflexivity.
Qed.


(** C10. Every integer sample the encoder emits lies in [-32767, 32767]:
    the conversion to 16 bits is the plain truncation, without wrap-around,
    and -32768 is never written. *)
Theorem pcm_samples_in_range (fl : R -> R) (HR : Rounding fl)
  (data : list R) :
  Forall (fun z => (-32767 <= z <= 32767)%Z) (int_data_of fl data) /\
  int_data_of fl data
  = map (fun x => py_int (fl (np_clip x (-1) 1 * 32767))) data /\
  ~ In (-32768)%Z (int_data_of fl data).
Proof.
  pose proof (int_data_of_range fl data) as F.
  split; [exact F|]. split.
  - unfold int_data_of. apply map_ext. intros x. apply (sample_no_wrap fl).
  - intros Hin. rewrite Forall_forall in F. specialize (F _ Hin). lia.
Qed.

Lemma pcm_samples_in_range_witness :
  Forall (fun z => (-32767 <= z <= 32767)%Z)
    (int_data_of (fun r => r) [2; -3; 0]) /\
  ~ In (-32768)%Z (int_data_of (fun r => r) [2; -3; 0]).
Proof.
  destruct (pcm_samples_in_range (fun r => r) exact_rounding [2; -3; 0])
    as [A [_ B]].
  split; [exact A | exact B].
Defined.

(** ** Frames of the animation *)

Lemma mapM_returns {A B : Type} (f : A -> outcome B) (P : B -> Prop)
  (l : list A) :
  (forall a, In a l -> exists b, f a = Returned b /\ P b) ->
  exists bs, mapM f l = Returned bs /\ length bs = length l /\ Forall P bs.
Proof.
  induction l as [|a l IH]; intros H.
  - exists []. simpl. auto.
  - destruct (H a (or_introl eq_refl)) as [b [Hb Pb]].
    destruct IH as [bs [Hbs [Hl HP]]].
    { intros a' Ha'. apply H. right. exact Ha'. }
    exists (b :: bs). cbn [mapM]. rewrite Hb. cbn [bind]. rewrite Hbs.
    cbn [bind]. simpl. auto.
Qed.

Lemma mapM_raises {A B : Type} (f : A -> outcome B) (l : list A) (e : exn) :
  mapM f l = Raised e -> exists a, In a l /\ f a = Raised e.
Proof.
  induction l as [|a l IH]; cbn [mapM]; intros H; [discriminate|].
  destruct (f a) as [b|e'] eqn:Ea; cbn [bind] in H.
  - destruct (mapM f l) as [bs|e''] eqn:El; cbn [bind] in H; [discriminate|].
    inversion H; subst. destruct (IH eq_refl) as [a' [Hin Hf]].
    exists a'. split; [right; exact Hin | exact Hf].
  - inversion H; subst. exists a. split; [left; reflexivity | exact Ea].
Qed.

Lemma py_range_In (n k : Z) : In k (py_range n) <-> (0 <= k < n)%Z.
Proof.
  unfold py_range. rewrite in_map_iff. split.
  - intros [i [<- Hi]]. apply in_seq in Hi. lia.
  - intros H. exists (Z.to_nat k). split; [lia|]. apply in_seq. lia.
Qed.

Lemma py_range_length (n : Z) : len (py_range n) = Z.max 0 n.
Proof.
  unfold py_range, len. rewrite length_map, length_seq. lia.
Qed.

Lemma update_raises (t x_sum envelope : list R) (window step frame : Z)
  (e : exn) :
  update t x_sum envelope window step frame = Raised e -> e = IndexError.
Proof.
  unfold update. destruct (frame_bounds _ _ _ _) as [i j].
  unfold py_index.
  destruct (_ && _)%bool; [|cbn [bind]; congruence].
  destruct (nth_error _ _); cbn [bind]; congruence.
Qed.

(** With a window that fits and a positive frame count the sampler returns
    [F] frames, each made of [W]-element slices. *)
Lemma window_sampler_returns (t x_sum envelope : list R) (W F : Z) :
  length x_sum = length t -> length envelope = length t ->
  (0 < W <= len t)%Z -> (0 < F)%Z ->
  exists frs, window_sampler t x_sum envelope W F = Returned frs /\
    len frs = F /\
    Forall (fun fr => len (seg_t fr) = W /\ len (seg_sum fr) = W /\
                      len (seg_env fr) = W /\ len (seg_envm fr) = W) frs.
Proof.
  intros Hx He HW HF. unfold window_sampler.
  destruct (frame_of_update t x_sum envelope W F 0 Hx He)
    as [step [Hs [Es _]]]; try lia.
  rewrite Hs. cbn [bind].
  destruct (mapM_returns (update t x_sum envelope W step)
              (fun fr => len (seg_t fr) = W /\ len (seg_sum fr) = W /\
                         len (seg_env fr) = W /\ len (seg_envm fr) = W)
              (py_range F)) as [frs [Hf [Hl HP]]].
  - intros k Hk. apply py_range_In in Hk.
    destruct (frame_of_update t x_sum envelope W F k Hx He)
      as [step' [Hs' [_ Hrest]]]; try lia.
    rewrite Hs in Hs'. inversion Hs'; subst step'.
    destruct Hrest as [_ [_ [_ [_ [_ [_ [_ Hu]]]]]]].
    destruct Hu as [fr [Hfr [_ [_ Hlens]]]]; [lia|].
    exists fr. split; [exact Hfr | exact Hlens].
  - exists frs. split; [exact Hf|]. split; [|exact HP].
    unfold len in *. rewrite Hl. fold (len (py_range F)).
    rewrite py_range_length. lia.
Qed.

(** C1. With [0 <= W <= N], [F > 0] and [0 <= k < F], frame [k] starts at
    [min(k*step, N-W)] for [step = max(1, (N-W)//F)]; the start lies in
    [0, N-W], frame 0 starts at 0, and each slice of the frame has exactly
    [W] elements.  For a non-empty window [update] returns that frame, and
    the sampler returns [F] frames of length [W]. *)
Theorem window_sampler_frames
  (t x_sum envelope : list R) (W F k : Z) :
  length x_sum = length t -> length envelope = length t ->
  (0 <= W <= len t)%Z -> (0 < F)%Z -> (0 <= k < F)%Z ->
  exists step,
    step_of (len t) W F = Returned step /\
    step = Z.max 1 ((len t - W) / F) /\
    let i := fst (frame_bounds (len t) W step k) in
    let j := snd (frame_bounds (len t) W step k) in
    i = Z.min (k * step) (len t - W) /\
    j = (i + W)%Z /\
    (0 <= i <= len t - W)%Z /\
    fst (frame_bounds (len t) W step 0) = 0%Z /\
    len (py_slice t i j) = W /\
    len (py_slice x_sum i j) = W /\
    len (py_slice envelope i j) = W /\
    ((0 < W)%Z ->
     (exists fr, update t x_sum envelope W step k = Returned fr /\
        seg_sum fr = py_slice x_sum i j /\
        seg_env fr = py_slice envelope i j /\
        len (seg_t fr) = W /\ len (seg_sum fr) = W /\
        len (seg_env fr) = W /\ len (seg_envm fr) = W) /\
     (exists frs, window_sampler t x_sum envelope W F = Returned frs /\
        len frs = F /\
        Forall (fun fr => len (seg_t fr) = W /\ len (seg_sum fr) = W /\
                          len (seg_env fr) = W /\ len (seg_envm fr) = W)
          frs)).
Proof.
  intros Hx He HW HF Hk.
  destruct (frame_of_update t x_sum envelope W F k Hx He HW HF Hk)
    as [step [H1 [H2 H3]]].
  exists step. split; [exact H1|]. split; [exact H2|].
  cbv zeta in *.
  destruct H3 as [A [B [C [D [E [G [I J]]]]]]].
  repeat (split; [assumption|]).
  intros HWpos. split; [exact (J HWpos)|].
  apply window_sampler_returns; try assumption; lia.
Qed.

Lemma window_sampler_frames_witness :
  exists step,
    step_of (len [0; 1; 2; 3; 4]) 2 2 = Returned step /\
    step = Z.max 1 ((len [0; 1; 2; 3; 4] - 2) / 2) /\
    fst (frame_bounds (len [0; 1; 2; 3; 4]) 2 step 1)
    = Z.min (1 * step) (len [0; 1; 2; 3; 4] - 2) /\
    len (py_slice [0; 1; 2; 3; 4]
           (fst (frame_bounds (len [0; 1; 2; 3; 4]) 2 step 1))
           (snd (frame_bounds (len [0; 1; 2; 3; 4]) 2 step 1))) = 2%Z.
Proof.
  destruct (window_sampler_frames [0; 1; 2; 3; 4] [1; 1; 1; 1; 1]
              [1; 1; 1; 1; 1] 2 2 1) as [step [H1 [H2 H3]]];
    try reflexivity; try (unfold len; simpl; lia).
  exists step. split; [exact H1|]. split; [exact H2|].
  cbv zeta in H3. split; [exact (proj1 H3)|].
  exact (proj1 (proj2 (proj2 (proj2 (proj2 H3))))).
Defined.

Example window_sampler_demo :
  frame_bounds 1000 100 90 0 = (0, 100)%Z /\
  frame_bounds 1000 100 90 9 = (810, 910)%Z /\
  frame_bounds 10 4 1 8 = (6, 10)%Z.
Proof. repeat split. Qed.

(** ** Parameter checks *)

Lemma generate_cases (fs duration f1 f2 : R) :
  ((py_int (fs * duration) < 0)%Z ->
   generate fs duration f1 f2 = Raised ValueError) /\
  ((0 <= py_int (fs * duration))%Z ->
   exists s, generate fs duration f1 f2 = Returned s /\
             len (t s) = py_int (fs * duration)).
Proof.
  unfold generate, time_grid. split; intros H.
  - unfold linspace0. destruct (Z.ltb_spec (py_int (fs * duration)) 0); [|lia].
    reflexivity.
  - destruct (linspace0_returns duration _ H) as [g [Hg [Hl _]]].
    rewrite Hg. cbn [bind]. eexists. split; [reflexivity|]. exact Hl.
Qed.

(** C9, as the script has it.  No parameter is validated and
    [InvalidParameter] is never raised.  The generator raises [ValueError]
    exactly when [int(fs*duration)] is negative and otherwise returns a grid
    of that many points, an empty one when the count is zero.  The sampler
    raises [ZeroDivisionError] when [F = 0], returns no frame when [F < 0],
    and can otherwise only raise [IndexError]. *)
Theorem no_parameter_validation :
  (forall fs duration f1 f2,
     ((py_int (fs * duration) < 0)%Z ->
      generate fs duration f1 f2 = Raised ValueError) /\
     ((0 <= py_int (fs * duration))%Z ->
      exists s, generate fs duration f1 f2 = Returned s /\
                len (t s) = py_int (fs * duration)) /\
     generate fs duration f1 f2 <> Raised InvalidParameter) /\
  (forall t x_sum envelope W F,
     (F = 0%Z ->
      window_sampler t x_sum envelope W F = Raised ZeroDivisionError) /\
     ((F < 0)%Z -> window_sampler t x_sum envelope W F = Returned []) /\
     (forall e, window_sampler t x_sum envelope W F = Raised e ->
        (e = ZeroDivisionError /\ F = 0%Z) \/
        (e = IndexError /\ (0 < F)%Z))).
Proof.
  split.
  - intros fs duration f1 f2.
    destruct (generate_cases fs duration f1 f2) as [Hneg Hpos].
    split; [exact Hneg|]. split; [exact Hpos|].
    destruct (Z_lt_le_dec (py_int (fs * duration)) 0) as [Hlt|Hle].
    + rewrite (Hneg Hlt). discriminate.
    + destruct (Hpos Hle) as [s [-> _]]. discriminate.
  - intros t x_sum envelope W F. unfold window_sampler, step_of.
    split; [|split].
    + intros ->. reflexivity.
    + intros HF. destruct (Z.eqb_spec F 0); [lia|]. cbn [bind].
      unfold py_range. replace (Z.to_nat F) with 0%nat by lia. reflexivity.
    + intros e. destruct (Z.eqb_spec F 0) as [->|NE]; cbn [bind].
      * intros H. inversion H. left. split; reflexivity.
      * intros H. apply mapM_raises in H. destruct H as [k [Hk Hu]].
        apply py_range_In in Hk. apply update_raises in Hu.
        right. split; [exact Hu | lia].
Qed.

(** C9 as worded fails: with rate 0 the generator returns an empty signal
    set, and with a window of 4 on a signal of 3 the sampler returns a
    one-sample frame. *)
Lemma invalid_parameters_accepted :
  0 <= 0 /\ py_int (0 * 1) = 0%Z /\
  generate 0 1 440 444 = Returned (mkSignals [] [] [] [] (Rabs (444 - 440)) []) /\
  (4 > len [0; 1; 2])%Z /\
  window_sampler [0; 1; 2] [5; 6; 7] [8; 9; 10] 4 1
  = Returned [mkFrame [2 - 2] [7] [10] [- 10]].
Proof.
  assert (E : py_int (0 * 1) = 0%Z).
  { replace (0 * 1) with (IZR 0) by (simpl; lra). apply py_int_IZR. }
  split; [lra|]. split; [exact E|]. split; [|split].
  - unfold generate, time_grid. rewrite E. reflexivity.
  - unfold len. simpl. lia.
  - reflexivity.
Qed.

(** ** Finite sums *)

Lemma big_sum_ext (f g : nat -> R) (n : nat) :
  (forall i, (i < n)%nat -> f i = g i) -> big_sum f n = big_sum g n.
Proof.
  induction n as [|n IH]; intros H; [reflexivity|].
  cbn [big_sum]. rewrite IH by (intros; apply H; lia).
  rewrite (H n) by lia. reflexivity.
Qed.

Lemma big_sum_plus (f g : nat -> R) (n : nat) :
  big_sum (fun i => f i + g i) n = big_sum f n + big_sum g n.
Proof.
  induction n as [|n IH]; cbn [big_sum]; [lra|]. rewrite IH. lra.
Qed.

Lemma big_sum_scal (c : R) (f : nat -> R) (n : nat) :
  big_sum (fun i => c * f i) n = c * big_sum f n.
Proof.
  induction n as [|n IH]; cbn [big_sum]; [lra|]. rewrite IH. lra.
Qed.

Lemma big_sum_const (c : R) (n : nat) : big_sum (fun _ => c) n = INR n * c.
Proof.
  induction n as [|n IH]; [simpl; lra|].
  cbn [big_sum]. rewrite IH, S_INR. lra.
Qed.

Lemma big_sum_zero (f : nat -> R) (n : nat) :
  (forall i, (i < n)%nat -> f i = 0) -> big_sum f n = 0.
Proof.
  intros H. rewrite (big_sum_ext f (fun _ => 0) n H), big_sum_const. lra.
Qed.

Lemma big_sum_swap (f : nat -> nat -> R) (n m : nat) :
  big_sum (fun i => big_sum (fun j => f i j) m) n
  = big_sum (fun j => big_sum (fun i => f i j) n) m.
Proof.
  induction n as [|n IH]; cbn [big_sum].
  - symmetry. apply big_sum_zero. reflexivity.
  - rewrite IH, <- big_sum_plus. reflexivity.
Qed.

Lemma big_sum_single (f : nat -> R) (n m : nat) :
  (m < n)%nat -> (forall i, (i < n)%nat -> i <> m -> f i = 0) ->
  big_sum f n = f m.
Proof.
  induction n as [|n IH]; intros Hm H; [lia|].
  cbn [big_sum]. destruct (Nat.eq_dec m n) as [->|NE].
  - rewrite big_sum_zero; [lra|]. intros i Hi. apply H; lia.
  - rewrite IH by (try lia; intros; apply H; lia).
    rewrite (H n) by lia. lra.
Qed.

(** ** Sums of cosines over the roots of unity *)

Lemma cos_sum_telescope (theta : R) (K : nat) :
  2 * sin (theta / 2) * big_sum (fun k => cos (INR k * theta)) K
  = sin ((INR K - 1 / 2) * theta) + sin (theta / 2).
Proof.
  induction K as [|K IH].
  - cbn [big_sum INR].
    replace ((0 - 1 / 2) * theta) with (- (theta / 2)) by field.
    rewrite sin_neg. lra.
  - cbn [big_sum]. rewrite Rmult_plus_distr_l, IH, S_INR.
    replace ((INR K + 1 - 1 / 2) * theta) with (INR K * theta + theta / 2)
      by field.
    replace ((INR K - 1 / 2) * theta) with (INR K * theta - theta / 2)
      by field.
    rewrite sin_plus, sin_minus. lra.
Qed.

Lemma cos_sum_roots (d M : nat) :
  (0 < d < M)%nat ->
  big_sum (fun k => cos (2 * PI * INR k * INR d / INR M)) M = 0.
Proof.
  intros [Hd HM].
  assert (HdR : 0 < INR d) by (apply lt_0_INR; lia).
  assert (HMR : 0 < INR M) by (apply lt_0_INR; lia).
  assert (HdM : INR d < INR M) by (apply lt_INR; lia).
  pose proof PI_RGT_0 as Hpi.
  set (theta := 2 * PI * INR d / INR M).
  rewrite (big_sum_ext _ (fun k => cos (INR k * theta)))
    by (intros; unfold theta; f_equal; field; lra).
  pose proof (cos_sum_telescope theta M) as T.
  replace ((INR M - 1 / 2) * theta)
    with (- (theta / 2) + 2 * INR d * PI) in T
    by (unfold theta; field; lra).
  rewrite sin_period, sin_neg in T.
  assert (Hs : 0 < sin (theta / 2)).
  { apply sin_gt_0.
    - unfold theta. apply Rdiv_lt_0_compat; [|lra].
      apply Rdiv_lt_0_compat; [|lra].
      apply Rmult_lt_0_compat; lra.
    - replace (theta / 2) with (PI * (INR d / INR M))
        by (unfold theta; field; lra).
      assert (INR d / INR M < 1).
      { apply Rmult_lt_reg_r with (INR M); [lra|].
        unfold Rdiv. rewrite Rmult_assoc, Rinv_l by lra. lra. }
      nra. }
  assert (Z0 : 2 * sin (theta / 2)
               * big_sum (fun k => cos (INR k * theta)) M = 0) by lra.
  apply Rmult_integral in Z0. destruct Z0 as [Z0|Z0]; [lra|exact Z0].
Qed.

(** Orthogonality: the sum over [k] of [cos(2 pi k (m - n) / M)]. *)
Lemma cos_sum_diff (m n M : nat) :
  (m < M)%nat -> (n < M)%nat -> m <> n ->
  big_sum (fun k => cos (2 * PI * INR m * INR k / INR M
                         - 2 * PI * INR n * INR k / INR M)) M = 0.
Proof.
  intros Hm Hn NE.
  assert (HMR : 0 < INR M) by (apply lt_0_INR; lia).
  destruct (Nat.lt_ge_cases n m) as [L|L].
  - rewrite <- (cos_sum_roots (m - n) M) by lia.
    apply big_sum_ext. intros k _. f_equal.
    rewrite minus_INR by lia. field. lra.
  - rewrite <- (cos_sum_roots (n - m) M) by lia.
    apply big_sum_ext. intros k _.
    rewrite <- cos_neg. f_equal.
    rewrite minus_INR by lia. field. lra.
Qed.

(** ** The transform determines its input *)

(** Inversion: the samples are recovered from all [M] bins. *)
Lemma dft_inversion (a : list R) (M n : nat) :
  (n < M)%nat ->
  big_sum (fun k =>
             re (dft_bin a M k) * cos (2 * PI * INR n * INR k / INR M)
             - im (dft_bin a M k) * sin (2 * PI * INR n * INR k / INR M)) M
  = INR M * nth n a 0.
Proof.
  intros Hn. unfold dft_bin. cbn [re im].
  rewrite (big_sum_ext _
    (fun k => big_sum (fun m => nth m a 0 *
        cos (2 * PI * INR m * INR k / INR M
             - 2 * PI * INR n * INR k / INR M)) M)).
  2:{ intros k _. symmetry.
      rewrite (big_sum_ext _
        (fun m => cos (2 * PI * INR n * INR k / INR M)
                  * (nth m a 0 * cos (2 * PI * INR m * INR k / INR M))
                  + - sin (2 * PI * INR n * INR k / INR M)
                    * - (nth m a 0 * sin (2 * PI * INR m * INR k / INR M))))
        by (intros; rewrite cos_minus; ring).
      rewrite big_sum_plus, !big_sum_scal. ring. }
  rewrite big_sum_swap.
  rewrite (big_sum_ext _
    (fun m => nth m a 0 * big_sum (fun k =>
        cos (2 * PI * INR m * INR k / INR M
             - 2 * PI * INR n * INR k / INR M)) M))
    by (intros; apply big_sum_scal).
  rewrite (big_sum_single _ M n Hn).
  - rewrite (big_sum_ext _ (fun _ => 1)), big_sum_const; [lra|].
    intros k _. rewrite Rminus_diag. apply cos_0.
  - intros m Hm NE. rewrite cos_sum_diff by assumption. lra.
Qed.

(** Conjugate symmetry of the transform of a real signal. *)
Lemma dft_mirror (a : list R) (M k : nat) :
  (0 < k < M)%nat ->
  re (dft_bin a M (M - k)) = re (dft_bin a M k) /\
  im (dft_bin a M (M - k)) = - im (dft_bin a M k).
Proof.
  intros Hk.
  assert (HMR : 0 < INR M) by (apply lt_0_INR; lia).
  assert (A : forall m, 2 * PI * INR m * INR (M - k) / INR M
                        = - (2 * PI * INR m * INR k / INR M) + 2 * INR m * PI).
  { intros m. rewrite minus_INR by lia. field. lra. }
  unfold dft_bin. cbn [re im]. split.
  - apply big_sum_ext. intros m _. rewrite A, cos_period, cos_neg. reflexivity.
  - transitivity
      (-1 * big_sum
              (fun m => - (nth m a 0 * sin (2 * PI * INR m * INR k / INR M)))
              M); [|lra].
    rewrite <- big_sum_scal.
    apply big_sum_ext. intros m _. rewrite A, sin_period, sin_neg. lra.
Qed.

Lemma np_abs_c_zero (z : complex) : np_abs_c z = 0 -> re z = 0 /\ im z = 0.
Proof.
  unfold np_abs_c. intros H. apply sqrt_eq_0 in H; nra.
Qed.

Lemma np_abs_c_nonneg (z : complex) : 0 <= np_abs_c z.
Proof. apply sqrt_pos. Qed.

(** If every one-sided bin vanishes, so does the signal. *)
Lemma rfft_zero_signal (a : list R) (M : nat) :
  (forall k, (k <= M / 2)%nat -> np_abs_c (dft_bin a M k) = 0) ->
  forall n, (n < M)%nat -> nth n a 0 = 0.
Proof.
  intros H n Hn.
  assert (HMR : 0 < INR M) by (apply lt_0_INR; lia).
  assert (All : forall k, (k < M)%nat ->
            re (dft_bin a M k) = 0 /\ im (dft_bin a M k) = 0).
  { intros k Hk. destruct (Nat.le_gt_cases k (M / 2)) as [L|G].
    - apply np_abs_c_zero, H, L.
    - assert (Hmk : (M - k <= M / 2)%nat).
      { pose proof (Nat.div_mod_eq M 2).
        pose proof (Nat.mod_upper_bound M 2). lia. }
      destruct (np_abs_c_zero _ (H _ Hmk)) as [R0 I0].
      destruct (dft_mirror a M (M - k)) as [Rm Im]; [lia|].
      replace (M - (M - k))%nat with k in * by lia.
      rewrite Rm, Im, R0, I0. split; lra. }
  pose proof (dft_inversion a M n Hn) as Inv.
  rewrite big_sum_zero in Inv.
  - symmetry in Inv. apply Rmult_integral in Inv. lra.
  - intros k Hk. destruct (All k Hk) as [-> ->]. lra.
Qed.

(** ** Spectrum *)

Lemma fold_left_Rmax_ge (l : list R) (x : R) :
  x <= fold_left Rmax l x /\ forall y, In y l -> y <= fold_left Rmax l x.
Proof.
  revert x. induction l as [|v l IH]; intros x; cbn [fold_left].
  - split; [lra | intros y []].
  - destruct (IH (Rmax x v)) as [H1 H2].
    pose proof (Rmax_l x v). pose proof (Rmax_r x v).
    split; [lra|]. intros y [<-|Hy]; [lra | apply H2, Hy].
Qed.

Lemma fold_left_Rmax_in (l : list R) (x : R) :
  fold_left Rmax l x = x \/ In (fold_left Rmax l x) l.
Proof.
  revert x. induction l as [|v l IH]; intros x; cbn [fold_left].
  - left. reflexivity.
  - destruct (IH (Rmax x v)) as [E|Hin].
    + rewrite E. unfold Rmax. destruct (Rle_dec x v).
      * right. left. reflexivity.
      * left. reflexivity.
    + right. right. exact Hin.
Qed.

Lemma np_max_spec (l : list R) :
  l <> [] ->
  exists m, np_max l = Returned m /\ In m l /\ forall y, In y l -> y <= m.
Proof.
  destruct l as [|x l]; [congruence|]. intros _.
  exists (fold_left Rmax l x). split; [reflexivity|].
  destruct (fold_left_Rmax_ge l x) as [G1 G2]. split.
  - destruct (fold_left_Rmax_in l x) as [E|Hin].
    + left. symmetry. exact E.
    + right. exact Hin.
  - intros y [<-|Hy]; [exact G1 | apply G2, Hy].
Qed.

Lemma pad_to_length (n : nat) (a : list R) : length (pad_to n a) = n.
Proof.
  unfold pad_to. rewrite length_app, length_firstn, repeat_length. lia.
Qed.

Lemma pad_to_nth (n i : nat) (a : list R) :
  (i < n)%nat -> nth i (pad_to n a) 0 = nth i a 0.
Proof.
  intros Hi. unfold pad_to.
  destruct (Nat.lt_ge_cases i (length a)) as [L|G].
  - rewrite app_nth1 by (rewrite length_firstn; lia).
    rewrite nth_firstn. destruct (Nat.ltb_spec i n); [reflexivity | lia].
  - rewrite app_nth2 by (rewrite length_firstn; lia).
    rewrite nth_repeat. rewrite (nth_overflow a) by lia. reflexivity.
Qed.

Lemma py_slice_prefix {A : Type} (l : list A) (n : Z) :
  (0 <= n)%Z -> py_slice l 0 n = firstn (Z.to_nat n) l.
Proof.
  intros Hn. unfold py_slice, slice_bound.
  destruct (Z.ltb_spec n 0); [lia|]. cbn [Z.ltb Z.compare].
  assert (Hl : (0 <= len l)%Z) by (unfold len; lia).
  rewrite (Z.min_l 0) by exact Hl. cbn [Z.to_nat skipn].
  rewrite Z.sub_0_r.
  destruct (Z.le_ge_cases n (len l)) as [L|G].
  - rewrite Z.min_l by exact L. reflexivity.
  - rewrite Z.min_r by exact G. unfold len in *.
    rewrite Nat2Z.id. rewrite !firstn_all2 by lia. reflexivity.
Qed.

(** The samples that enter the transform: the first [Nfft] samples of the
    signal, then zeros. *)
Lemma window_nth (x : list R) (Nfft : Z) (i : nat) :
  (0 <= Nfft)%Z -> (i < Z.to_nat Nfft)%nat ->
  nth i (pad_to (Z.to_nat Nfft) (py_slice x 0 Nfft)) 0 = nth i x 0.
Proof.
  intros HN Hi. rewrite pad_to_nth by exact Hi.
  rewrite py_slice_prefix by exact HN. rewrite nth_firstn.
  destruct (Nat.ltb_spec i (Z.to_nat Nfft)); [reflexivity | lia].
Qed.

Lemma bins_count (Nfft : Z) :
  (1 <= Nfft)%Z -> Z.to_nat (Nfft / 2 + 1) = (Z.to_nat Nfft / 2 + 1)%nat.
Proof.
  intros H. rewrite Z2Nat.inj_add by (try apply Z.div_pos; lia).
  rewrite Z2Nat.inj_div by lia. reflexivity.
Qed.

(** What the four lines compute when none of them raises. *)
Lemma spectrum_unfold (fs : R) (Nfft : Z) (x : list R) :
  fs <> 0 -> (1 <= Nfft)%Z ->
  let N := Z.to_nat Nfft in
  let X := map (dft_bin (pad_to N (py_slice x 0 Nfft)) N) (seq 0 (N / 2 + 1)) in
  exists m,
    In m (map np_abs_c X) /\
    (forall y, In y (map np_abs_c X) -> y <= m) /\
    spectrum fs Nfft x
    = Returned (mkSpectrum
                  (map (fun k => INR k * (1 / (IZR Nfft * (1 / fs))))
                       (seq 0 (N / 2 + 1)))
                  (map (fun z => np_divide (np_abs_c z) m) X)).
Proof.
  intros Hfs HN N X.
  destruct (np_max_spec (map np_abs_c X)) as [m [Hm [Hin Hmax]]].
  { unfold X. rewrite Nat.add_1_r. cbn. discriminate. }
  exists m. split; [exact Hin|]. split; [exact Hmax|].
  unfold spectrum, rfft.
  destruct (Z.ltb_spec Nfft 1); [lia|]. cbn [bind].
  unfold py_div at 1. destruct (Req_EM_T fs 0); [contradiction|]. cbn [bind].
  unfold rfftfreq, py_div.
  assert (HNR : IZR Nfft <> 0) by (apply not_0_IZR; lia).
  assert (Hd : IZR Nfft * (1 / fs) <> 0).
  { apply Rmult_integral_contrapositive_currified; [exact HNR|].
    unfold Rdiv. rewrite Rmult_1_l. apply Rinv_neq_0_compat, Hfs. }
  destruct (Req_EM_T (IZR Nfft * (1 / fs)) 0); [contradiction|]. cbn [bind].
  fold N. fold X. rewrite Hm. cbn [bind].
  rewrite bins_count by exact HN. reflexivity.
Qed.

Lemma dft_bin_zero (a : list R) (N k : nat) :
  (forall m, (m < N)%nat -> nth m a 0 = 0) -> np_abs_c (dft_bin a N k) = 0.
Proof.
  intros H. unfold np_abs_c, dft_bin. cbn [re im].
  rewrite !big_sum_zero by (intros m Hm; rewrite (H m Hm); lra).
  rewrite Rmult_0_l, Rplus_0_l. apply sqrt_0.
Qed.

Lemma np_divide_zero : np_divide 0 0 = NaN.
Proof.
  unfold np_divide. destruct (Req_EM_T 0 0); [reflexivity | congruence].
Qed.

Lemma np_divide_fin (a b : R) : b <> 0 -> np_divide a b = Fin (a / b).
Proof.
  intros H. unfold np_divide. destruct (Req_EM_T b 0); [contradiction|].
  reflexivity.
Qed.

(** A window of zeros: every normalised magnitude is the quotient 0/0. *)
Lemma spectrum_zero_window (fs : R) (Nfft : Z) (x : list R) :
  fs <> 0 -> (1 <= Nfft)%Z ->
  (forall i, (i < Z.to_nat Nfft)%nat -> nth i x 0 = 0) ->
  spectrum fs Nfft x
  = Returned (mkSpectrum
                (map (fun k => INR k * (1 / (IZR Nfft * (1 / fs))))
                     (seq 0 (Z.to_nat Nfft / 2 + 1)))
                (map (fun _ => NaN) (seq 0 (Z.to_nat Nfft / 2 + 1)))).
Proof.
  intros Hfs HN Hz.
  destruct (spectrum_unfold fs Nfft x Hfs HN) as [m [Hin [_ Hs]]].
  assert (Hbin : forall k,
            np_abs_c (dft_bin (pad_to (Z.to_nat Nfft) (py_slice x 0 Nfft))
                        (Z.to_nat Nfft) k) = 0).
  { intros k. apply dft_bin_zero. intros i Hi.
    rewrite window_nth by (try lia; exact Hi). apply Hz, Hi. }
  assert (Hm : m = 0).
  { rewrite map_map in Hin. apply in_map_iff in Hin.
    destruct Hin as [k [<- _]]. apply Hbin. }
  rewrite Hs. do 2 f_equal. rewrite map_map. apply map_ext.
  intros k. rewrite Hbin, Hm. apply np_divide_zero.
Qed.

Lemma spectrum_raises (fs : R) (Nfft : Z) (x : list R) (e : exn) :
  spectrum fs Nfft x = Raised e -> e = ValueError \/ e = ZeroDivisionError.
Proof.
  unfold spectrum, rfft. destruct (Nfft <? 1)%Z; cbn [bind].
  { intros H; inversion H; auto. }
  unfold py_div at 1. destruct (Req_EM_T fs 0); cbn [bind].
  { intros H; inversion H; auto. }
  unfold rfftfreq, py_div. destruct (Req_EM_T _ 0); cbn [bind].
  { intros H; inversion H; auto. }
  destruct (np_max _) as [m|e'] eqn:Em; cbn [bind]; [discriminate|].
  intros H; inversion H; subst.
  unfold np_max in Em. destruct (map np_abs_c _); inversion Em. auto.
Qed.

(** C6, as the script has it.  When one of the first [M] samples is not
    zero, for every window size [M >= 1] (every power of two is one), the
    analyzer returns the magnitudes of bins [0 .. M/2] of the transform of
    the first [M] samples, zero-padded, each divided by the largest of them,
    so that every value is at most 1 and one of them is exactly 1; bin [k]
    is paired with frequency [k * fs / M]. *)
Theorem spectrum_normalized (fs : R) (Nfft : Z) (x : list R) :
  fs <> 0 -> (1 <= Nfft)%Z ->
  (exists i, (i < Z.to_nat Nfft)%nat /\ nth i x 0 <> 0) ->
  let N := Z.to_nat Nfft in
  let a := pad_to N (py_slice x 0 Nfft) in
  exists sp m, spectrum fs Nfft x = Returned sp /\
    length a = N /\
    (forall i, (i < N)%nat -> nth i a 0 = nth i x 0) /\
    0 < m /\
    (forall k, (k <= N / 2)%nat -> np_abs_c (dft_bin a N k) <= m) /\
    (exists k, (k <= N / 2)%nat /\ np_abs_c (dft_bin a N k) = m) /\
    length (freqs sp) = (N / 2 + 1)%nat /\
    length (amp sp) = (N / 2 + 1)%nat /\
    (forall k, (k <= N / 2)%nat ->
       nth k (freqs sp) 0 = INR k * fs / IZR Nfft /\
       nth k (amp sp) NaN = Fin (np_abs_c (dft_bin a N k) / m) /\
       0 <= np_abs_c (dft_bin a N k) / m <= 1) /\
    (exists k, (k <= N / 2)%nat /\ nth k (amp sp) NaN = Fin 1).
Proof.
  intros Hfs HN [i0 [Hi0 Hx0]] N a.
  destruct (spectrum_unfold fs Nfft x Hfs HN) as [m [Hin [Hmax Hs]]].
  fold N in Hin, Hmax, Hs. fold a in Hin, Hmax, Hs.
  assert (Hwin : forall i, (i < N)%nat -> nth i a 0 = nth i x 0).
  { intros i Hi. apply window_nth; [lia | exact Hi]. }
  assert (Hle : forall k, (k <= N / 2)%nat -> np_abs_c (dft_bin a N k) <= m).
  { intros k Hk. apply Hmax. rewrite map_map.
    apply in_map_iff. exists k. split; [reflexivity|]. apply in_seq. lia. }
  assert (Hat : exists k, (k <= N / 2)%nat /\ np_abs_c (dft_bin a N k) = m).
  { rewrite map_map in Hin. apply in_map_iff in Hin.
    destruct Hin as [k [Ek Hk]]. apply in_seq in Hk.
    exists k. split; [lia | exact Ek]. }
  assert (Hpos : 0 < m).
  { destruct Hat as [k0 [_ Ek0]].
    pose proof (np_abs_c_nonneg (dft_bin a N k0)) as P0.
    destruct (Req_dec m 0) as [Z0|NZ]; [|lra].
    exfalso. apply Hx0. rewrite <- (Hwin i0 Hi0).
    apply (rfft_zero_signal a N); [|exact Hi0].
    intros k Hk. pose proof (Hle k Hk).
    pose proof (np_abs_c_nonneg (dft_bin a N k)). lra. }
  assert (HNR : IZR Nfft <> 0) by (apply not_0_IZR; lia).
  assert (Hamp : forall k, (k <= N / 2)%nat ->
            nth k (map (fun z => np_divide (np_abs_c z) m)
                       (map (dft_bin a N) (seq 0 (N / 2 + 1)))) NaN
            = Fin (np_abs_c (dft_bin a N k) / m)).
  { intros k Hk. rewrite map_map.
    rewrite (nth_map_seq (fun j => np_divide (np_abs_c (dft_bin a N j)) m))
      by lia.
    apply np_divide_fin. lra. }
  eexists. exists m. split; [exact Hs|]. cbn [freqs amp].
  split; [apply pad_to_length|]. split; [exact Hwin|].
  split; [exact Hpos|]. split; [exact Hle|]. split; [exact Hat|].
  split; [rewrite length_map, length_seq; reflexivity|].
  split; [rewrite !length_map, length_seq; reflexivity|].
  split.
  - intros k Hk. split; [|split].
    + rewrite (nth_map_seq (fun j => INR j * (1 / (IZR Nfft * (1 / fs)))))
        by lia.
      field. split; assumption.
    + apply Hamp, Hk.
    + pose proof (Hle k Hk). pose proof (np_abs_c_nonneg (dft_bin a N k)).
      split.
      * unfold Rdiv. apply Rmult_le_pos; [assumption|].
        left. apply Rinv_0_lt_compat, Hpos.
      * apply Rmult_le_reg_r with m; [exact Hpos|].
        unfold Rdiv. rewrite Rmult_assoc, Rinv_l by lra. lra.
  - destruct Hat as [k [Hk Ek]]. exists k. split; [exact Hk|].
    rewrite (Hamp k Hk), Ek. f_equal. field. lra.
Qed.

Lemma spectrum_normalized_witness :
  exists sp m, spectrum 1 2 [1] = Returned sp /\
    0 < m /\
    length (amp sp) = (Z.to_nat 2 / 2 + 1)%nat /\
    (exists k, (k <= Z.to_nat 2 / 2)%nat /\ nth k (amp sp) NaN = Fin 1).
Proof.
  destruct (spectrum_normalized 1 2 [1]) as [sp [m H]].
  - lra.
  - lia.
  - exists 0%nat. split; [simpl; lia | simpl; lra].
  - cbv zeta in H. exists sp, m.
    destruct H as [H1 [_ [_ [H2 [_ [_ [_ [H3 [_ H4]]]]]]]]].
    repeat split; assumption.
Defined.

(** C6 as worded fails: the signal [0, 0, 1] is not identically zero, yet
    with a window of 2 samples both normalised magnitudes are the quotient
    0/0, and none is 1. *)
Lemma spectrum_zero_prefix_nan :
  nth 2 [0; 0; 1] 0 <> 0 /\ 2%Z = (2 ^ 1)%Z /\
  spectrum 1 2 [0; 0; 1]
  = Returned (mkSpectrum [0 * (1 / (2 * (1 / 1))); 1 * (1 / (2 * (1 / 1)))]
                         [NaN; NaN]).
Proof.
  split; [simpl; lra|]. split; [reflexivity|].
  rewrite spectrum_zero_window.
  - reflexivity.
  - lra.
  - lia.
  - intros i Hi. change (Z.to_nat 2) with 2%nat in Hi.
    destruct i as [|[|i]]; [reflexivity | reflexivity | lia].
Qed.

(** C7, as the script has it.  On an all-zero signal the analyzer does not
    fail: it returns the frequencies [k * fs / M] and, for every bin, the
    quotient 0/0.  [DegenerateSignal] is raised on no input at all. *)
Theorem spectrum_of_silence :
  (forall fs Nfft x, spectrum fs Nfft x <> Raised DegenerateSignal) /\
  (forall fs Nfft x,
     fs <> 0 -> (1 <= Nfft)%Z -> Forall (fun v => v = 0) x ->
     exists sp, spectrum fs Nfft x = Returned sp /\
       length (amp sp) = (Z.to_nat Nfft / 2 + 1)%nat /\
       Forall (fun v => v = NaN) (amp sp) /\
       length (freqs sp) = (Z.to_nat Nfft / 2 + 1)%nat /\
       forall k, (k <= Z.to_nat Nfft / 2)%nat ->
         nth k (freqs sp) 0 = INR k * fs / IZR Nfft).
Proof.
  split.
  - intros fs Nfft x H. apply spectrum_raises in H.
    destruct H; discriminate.
  - intros fs Nfft x Hfs HN Hx.
    assert (Hz : forall i, (i < Z.to_nat Nfft)%nat -> nth i x 0 = 0).
    { intros i _. destruct (Nat.lt_ge_cases i (length x)) as [L|G].
      - rewrite Forall_forall in Hx. apply Hx. apply nth_In, L.
      - apply nth_overflow, G. }
    eexists. split; [apply spectrum_zero_window; assumption|].
    cbn [freqs amp]. rewrite !length_map, !length_seq.
    split; [reflexivity|]. split.
    + apply Forall_forall. intros v Hv. apply in_map_iff in Hv.
      destruct Hv as [k [<- _]]. reflexivity.
    + split; [reflexivity|]. intros k Hk.
      rewrite (nth_map_seq (fun j => INR j * (1 / (IZR Nfft * (1 / fs)))))
        by lia.
      assert (HNR : IZR Nfft <> 0) by (apply not_0_IZR; lia).
      field. split; assumption.
Qed.

Lemma spectrum_of_silence_witness :
  exists sp, spectrum 44100 4 [0; 0; 0; 0; 0] = Returned sp /\
    Forall (fun v => v = NaN) (amp sp).
Proof.
  destruct (proj2 spectrum_of_silence 44100 4%Z [0; 0; 0; 0; 0])
    as [sp [H1 [_ [H2 _]]]].
  - lra.
  - lia.
  - repeat constructor.
  - exists sp. split; assumption.
Defined.

(** C7 as worded fails: two zero samples give a returned spectrum of two
    0/0 quotients, not the [DegenerateSignal] error. *)
Lemma silence_returns_nan :
  Forall (fun v => v = 0) [0; 0] /\
  spectrum 1 2 [0; 0]
  = Returned (mkSpectrum [0 * (1 / (2 * (1 / 1))); 1 * (1 / (2 * (1 / 1)))]
                         [NaN; NaN]) /\
  spectrum 1 2 [0; 0] <> Raised DegenerateSignal.
Proof.
  assert (E : spectrum 1 2 [0; 0]
              = Returned (mkSpectrum
                            [0 * (1 / (2 * (1 / 1))); 1 * (1 / (2 * (1 / 1)))]
                            [NaN; NaN])).
  { rewrite spectrum_zero_window.
    - reflexivity.
    - lra.
    - lia.
    - intros i Hi. change (Z.to_nat 2) with 2%nat in Hi.
      destruct i as [|[|i]]; [reflexivity | reflexivity | lia]. }
  split; [repeat constructor|]. split; [exact E|].
  rewrite E. discriminate.
Qed.

(** * Further properties of the script *)

(** ** The grid and the generated arrays *)

Lemma linspace0_inv (stop : R) (num : Z) (g : list R) :
  linspace0 stop num = Returned g ->
  (0 <= num)%Z /\ len g = num /\
  forall i, (i < length g)%nat -> nth i g 0 = INR i * (stop / IZR num).
Proof.
  intros H. unfold linspace0 in H.
  destruct (Z.ltb_spec num 0); [discriminate|].
  destruct (linspace0_returns stop num) as [g' [Hg' [Hl Hn]]]; [lia|].
  unfold linspace0 in Hg'. destruct (Z.ltb_spec num 0); [lia|].
  rewrite H in Hg'. inversion Hg'; subst g'. auto.
Qed.




Lemma x_sum_of_twice (x : list R) : x_sum_of x x = x.
Proof.
  unfold x_sum_of. induction x as [|v x IH]; [reflexivity|].
  cbn [np_add map]. rewrite IH. f_equal. lra.
Qed.

Lemma np_add_comm (a b : list R) : np_add a b = np_add b a.
Proof.
  revert b. induction a as [|x a IH]; intros [|y b]; cbn [np_add];
    try reflexivity.
  rewrite IH. f_equal. lra.
Qed.

Lemma generate_grid_start (fs duration f1 f2 : R) (s : signals) :
  generate fs duration f1 f2 = Returned s ->
  (0 < length (t s))%nat -> nth 0 (t s) 0 = 0.
Proof.
  intros H Hpos.
  destruct (generate_fields _ _ _ _ _ H) as [_ [_ [_ [_ [_ Hg]]]]].
  unfold time_grid in Hg. destruct (linspace0_inv _ _ _ Hg) as [_ [_ Hn]].
  rewrite (Hn 0%nat Hpos). simpl. lra.
Qed.

(** The five arrays of a generated set have one length, and a non-empty
    set starts on a beat maximum: the grid at 0, both tones, the half-sum
    and the envelope at 1. *)
Theorem generated_layout (fs duration f1 f2 : R) (s : signals) :
  generate fs duration f1 f2 = Returned s ->
  length (x1 s) = length (t s) /\ length (x2 s) = length (t s) /\
  length (x_sum s) = length (t s) /\ length (envelope s) = length (t s) /\
  ((0 < length (t s))%nat ->
   nth 0 (t s) 0 = 0 /\ nth 0 (x1 s) 0 = 1 /\ nth 0 (x2 s) 0 = 1 /\
   nth 0 (x_sum s) 0 = 1 /\ nth 0 (envelope s) 0 = 1).
Proof.
  intros H.
  destruct (generate_fields _ _ _ _ _ H) as [E1 [E2 [Es [Ed [Ee _]]]]].
  destruct (generated_samples _ _ _ _ _ H) as [Ls Hs].
  split; [rewrite E1; apply tone_length|].
  split; [rewrite E2; apply tone_length|].
  split; [exact Ls|]. split; [rewrite Ee; apply length_map|].
  intros Hpos. pose proof (generate_grid_start _ _ _ _ _ H Hpos) as T0.
  destruct (Hs 0%nat Hpos) as [A1 [A2 As]].
  rewrite T0 in A1, A2. rewrite Rmult_0_r, cos_0 in A1, A2.
  split; [exact T0|]. split; [exact A1|]. split; [exact A2|]. split.
  - rewrite As, A1, A2. lra.
  - rewrite Ee. unfold envelope_of.
    rewrite (nth_map_R (envelope_at (delta_f s))) by exact Hpos.
    unfold envelope_at. rewrite T0, Rmult_0_r, cos_0. apply Rabs_R1.
Qed.

Lemma generated_layout_witness :
  nth 0 (x_sum_of (tone 1 [0 * (1 / 1)]) (tone 1 [0 * (1 / 1)])) 0 = 1.
Proof.
  destruct (generated_layout 1 1 1 1 _ generate_unit) as [_ [_ [_ [_ H]]]].
  exact (proj1 (proj2 (proj2 (proj2 (H (Nat.lt_0_succ 0)))))).
Defined.

(** Two equal frequencies give no beats: the half-sum is the tone itself
    and the envelope is 1 everywhere. *)
Theorem equal_tones_no_beats (fs duration f : R) (s : signals) :
  generate fs duration f f = Returned s ->
  delta_f s = 0 /\ x2 s = x1 s /\ x_sum s = x1 s /\
  Forall (fun e => e = 1) (envelope s).
Proof.
  intros H.
  destruct (generate_fields _ _ _ _ _ H) as [E1 [E2 [Es [Ed [Ee _]]]]].
  assert (D0 : delta_f s = 0) by (rewrite Ed, Rminus_diag; apply Rabs_R0).
  split; [exact D0|]. split; [rewrite E1, E2; reflexivity|]. split.
  - rewrite Es, E2, <- E1. apply x_sum_of_twice.
  - rewrite Ee, D0. unfold envelope_of. apply Forall_forall.
    intros e He. apply in_map_iff in He. destruct He as [ti [<- _]].
    unfold envelope_at. rewrite Rmult_0_r, Rmult_0_l, cos_0. apply Rabs_R1.
Qed.

Lemma equal_tones_no_beats_witness :
  Forall (fun e => e = 1) (envelope_of (Rabs (1 - 1)) [0 * (1 / 1)]).
Proof.
  exact (proj2 (proj2 (proj2 (equal_tones_no_beats 1 1 1 _ generate_unit)))).
Defined.

(** Exchanging the two frequencies exchanges the two tones and leaves the
    grid, the half-sum and the envelope unchanged. *)
Theorem swap_frequencies (fs duration f1 f2 : R) (s : signals) :
  generate fs duration f1 f2 = Returned s ->
  exists s', generate fs duration f2 f1 = Returned s' /\
    t s' = t s /\ x1 s' = x2 s /\ x2 s' = x1 s /\
    x_sum s' = x_sum s /\ delta_f s' = delta_f s /\ envelope s' = envelope s.
Proof.
  intros H.
  destruct (generate_fields _ _ _ _ _ H) as [E1 [E2 [Es [Ed [Ee Hg]]]]].
  unfold generate. rewrite Hg. cbn [bind]. eexists. split; [reflexivity|].
  cbn [t x1 x2 x_sum delta_f envelope].
  assert (D : Rabs (f1 - f2) = delta_f s).
  { rewrite Ed, <- Rabs_Ropp. f_equal. lra. }
  repeat split.
  - symmetry. exact E2.
  - symmetry. exact E1.
  - rewrite Es, E1, E2. unfold x_sum_of. rewrite np_add_comm. reflexivity.
  - exact D.
  - rewrite Ee, D. reflexivity.
Qed.

Lemma swap_frequencies_witness :
  exists s', generate 1 1 1 1 = Returned s' /\
    x_sum s' = x_sum_of (tone 1 [0 * (1 / 1)]) (tone 1 [0 * (1 / 1)]).
Proof.
  destruct (swap_frequencies 1 1 1 1 _ generate_unit)
    as [s' [H1 [_ [_ [_ [H2 _]]]]]].
  exists s'. split; [exact H1 | exact H2].
Defined.

(** The half-sum is the carrier at the mean frequency times the slow cosine
    at half the difference, so its absolute value is the envelope times the
    absolute value of the carrier. *)
Theorem beat_product (fs duration f1 f2 : R) (s : signals) :
  generate fs duration f1 f2 = Returned s ->
  forall i, (i < length (t s))%nat ->
    nth i (x_sum s) 0
    = cos (PI * (f2 - f1) * nth i (t s) 0)
      * cos (PI * (f1 + f2) * nth i (t s) 0) /\
    Rabs (nth i (x_sum s) 0)
    = nth i (envelope s) 0 * Rabs (cos (PI * (f1 + f2) * nth i (t s) 0)).
Proof.
  intros H i Hi.
  destruct (generate_fields _ _ _ _ _ H) as [_ [_ [_ [Ed [Ee _]]]]].
  destruct (generated_samples _ _ _ _ _ H) as [_ Hs].
  destruct (Hs i Hi) as [A1 [A2 As]].
  assert (P : nth i (x_sum s) 0
              = cos (PI * (f2 - f1) * nth i (t s) 0)
                * cos (PI * (f1 + f2) * nth i (t s) 0)).
  { rewrite As, A1, A2. apply half_sum_cos. }
  split; [exact P|].
  rewrite P, Rabs_mult. f_equal.
  rewrite Ee. unfold envelope_of.
  rewrite (nth_map_R (envelope_at (delta_f s))) by exact Hi.
  rewrite Ed. symmetry. apply envelope_at_abs.
Qed.

Lemma beat_product_witness :
  nth 0 (x_sum_of (tone 1 [0 * (1 / 1)]) (tone 1 [0 * (1 / 1)])) 0
  = cos (PI * (1 - 1) * nth 0 [0 * (1 / 1)] 0)
    * cos (PI * (1 + 1) * nth 0 [0 * (1 / 1)] 0).
Proof.
  exact (proj1 (beat_product 1 1 1 1 _ generate_unit 0%nat (Nat.lt_0_succ 0))).
Defined.

(** ** More on the PCM encoder *)

Lemma Int_part_mono (x y : R) : x <= y -> (Int_part x <= Int_part y)%Z.
Proof.
  intros H. destruct (Int_part_bounds x) as [Bx _].
  destruct (Int_part_bounds y) as [_ By].
  apply Z.lt_succ_r. apply lt_IZR. rewrite succ_IZR. lra.
Qed.

Lemma py_int_mono (x y : R) : x <= y -> (py_int x <= py_int y)%Z.
Proof.
  intros H. unfold py_int.
  destruct (Rle_dec 0 x); destruct (Rle_dec 0 y); try lra.
  - apply Int_part_mono, H.
  - assert (Hx : 0 <= - x) by lra.
    pose proof (Int_part_nonneg (- x) Hx). pose proof (Int_part_nonneg y r).
    lia.
  - assert (Hm : - y <= - x) by lra.
    pose proof (Int_part_mono _ _ Hm). lia.
Qed.

Lemma py_int_opp (v : R) : py_int (- v) = (- py_int v)%Z.
Proof.
  unfold py_int. destruct (Rle_dec 0 v); destruct (Rle_dec 0 (- v)).
  - assert (v = 0) by lra. subst v. rewrite Ropp_0.
    change 0 with (IZR 0). rewrite Int_part_IZR. reflexivity.
  - rewrite Ropp_involutive. reflexivity.
  - lia.
  - lra.
Qed.

Lemma np_clip_mono (x y : R) : x <= y -> np_clip x (-1) 1 <= np_clip y (-1) 1.
Proof.
  intros H. unfold np_clip, Rmin, Rmax.
  destruct (Rle_dec x (-1)); destruct (Rle_dec y (-1));
    repeat match goal with
           | |- context [Rle_dec ?a ?b] => destruct (Rle_dec a b)
           end; lra.
Qed.

Lemma np_clip_opp (x : R) : np_clip (- x) (-1) 1 = - np_clip x (-1) 1.
Proof.
  unfold np_clip, Rmin, Rmax.
  destruct (Rle_dec x (-1)); destruct (Rle_dec (- x) (-1));
    repeat match goal with
           | |- context [Rle_dec ?a ?b] => destruct (Rle_dec a b)
           end; lra.
Qed.

(** The encoder keeps the order of the samples: within one buffer a larger
    input never gets a smaller integer. *)
Theorem pcm_order_preserved (fl : R -> R) (HR : Rounding fl)
  (data : list R) (i j : nat) :
  (i < length data)%nat -> (j < length data)%nat ->
  nth i data 0 <= nth j data 0 ->
  (nth i (int_data_of fl data) 0 <= nth j (int_data_of fl data) 0)%Z.
Proof.
  intros Hi Hj H. rewrite !(int_data_of_nth fl) by assumption.
  apply py_int_mono, fl_mono.
  apply Rmult_le_compat_r; [lra|]. apply np_clip_mono, H.
Qed.

Lemma pcm_order_preserved_witness :
  Z.le (nth 1 (int_data_of (fun r => r) [2; -3; 0]) 0%Z)
       (nth 0 (int_data_of (fun r => r) [2; -3; 0]) 0%Z).
Proof.
  apply (pcm_order_preserved (fun r => r) exact_rounding [2; -3; 0] 1 0);
    simpl; try lia; lra.
Defined.

(** With a rounding that commutes with negation, as round-to-nearest does,
    negating a buffer negates every integer sample: truncation is towards
    zero and the scale is the same on both sides. *)
Theorem pcm_odd (fl : R -> R) (data : list R) :
  (forall x, fl (- x) = - fl x) -> Rounding fl ->
  int_data_of fl (map Ropp data) = map Z.opp (int_data_of fl data).
Proof.
  intros Hodd HR. unfold int_data_of. rewrite !map_map. apply map_ext.
  intros x. rewrite !(sample_no_wrap fl).
  rewrite np_clip_opp.
  replace (- np_clip x (-1) 1 * 32767) with (- (np_clip x (-1) 1 * 32767))
    by ring.
  rewrite Hodd. apply py_int_opp.
Qed.

Lemma pcm_odd_witness :
  int_data_of (fun r => r) (map Ropp [2; -3; 0])
  = map Z.opp (int_data_of (fun r => r) [2; -3; 0]).
Proof.
  apply (pcm_odd (fun r => r) [2; -3; 0]);
    [intros; reflexivity | exact exact_rounding].
Defined.

Lemma int16_bytes_range (z : Z) :
  Forall (fun b => (0 <= b <= 255)%Z) (int16_bytes z).
Proof.
  unfold int16_bytes.
  pose proof (Z.mod_pos_bound z 65536 ltac:(lia)) as Hu.
  pose proof (Z.mod_pos_bound (z mod 65536) 256 ltac:(lia)) as Hlo.
  assert (Hhi : (0 <= z mod 65536 / 256 <= 255)%Z).
  { split; [apply Z.div_pos; lia|].
    apply Z.lt_succ_r. apply Z.div_lt_upper_bound; lia. }
  repeat constructor; lia.
Qed.

Lemma tobytes_range (l : list Z) :
  Forall (fun b => (0 <= b <= 255)%Z) (tobytes l).
Proof.
  unfold tobytes. induction l as [|z l IH]; [constructor|].
  cbn [flat_map]. apply Forall_app. split; [apply int16_bytes_range | exact IH].
Qed.

(** ** The three audio files *)

Lemma scaled_length (c : R) (x : list R) : length (scaled c x) = length x.
Proof. apply length_map. Qed.

Lemma scaled_sample (fl : R -> R) (HR : Rounding fl) (v : R) :
  -1 <= v <= 1 ->
  let z := py_int (fl (0.9 * v * 32767)) in
  astype_int16 (fl (np_clip (0.9 * v) (-1) 1 * 32767)) = z /\
  (-29491 <= z <= 29491)%Z.
Proof.
  intros Hv z. unfold z. rewrite (sample_no_wrap fl).
  rewrite np_clip_inside by lra. split; [reflexivity|].
  assert (Hlo : IZR (-29491) <= fl (0.9 * v * 32767)).
  { rewrite <- (fl_exact (fl := fl) (-29491)) by lia. apply fl_mono. lra. }
  assert (Hhi : fl (0.9 * v * 32767) <= IZR 29491).
  { rewrite <- (fl_exact (fl := fl) 29491) by lia. apply fl_mono. lra. }
  pose proof (py_int_mono _ _ Hlo) as A. pose proof (py_int_mono _ _ Hhi) as B.
  rewrite py_int_IZR in A, B. lia.
Qed.

Lemma scaled_int_data (fl : R -> R) (HR : Rounding fl) (x : list R) :
  Forall (fun v => -1 <= v <= 1) x ->
  int_data_of fl (scaled 0.9 x)
  = map (fun v => py_int (fl (0.9 * v * 32767))) x /\
  Forall (fun z => (-29491 <= z <= 29491)%Z) (int_data_of fl (scaled 0.9 x)).
Proof.
  intros Hx. unfold int_data_of, scaled. rewrite map_map.
  rewrite Forall_forall in Hx. split.
  - apply map_ext_in. intros v Hv.
    apply (scaled_sample fl HR v (Hx v Hv)).
  - apply Forall_forall. intros z Hz. apply in_map_iff in Hz.
    destruct Hz as [v [<- Hv]].
    destruct (scaled_sample fl HR v (Hx v Hv)) as [-> B]. exact B.
Qed.

Lemma generated_unit_range (fs duration f1 f2 : R) (s : signals) :
  generate fs duration f1 f2 = Returned s ->
  Forall (fun v => -1 <= v <= 1) (x1 s) /\
  Forall (fun v => -1 <= v <= 1) (x2 s) /\
  Forall (fun v => -1 <= v <= 1) (x_sum s).
Proof.
  intros H.
  destruct (generate_fields _ _ _ _ _ H) as [E1 [E2 [Es _]]].
  assert (T : forall f g, Forall (fun v => -1 <= v <= 1) (tone f g)).
  { intros f g. unfold tone. apply Forall_forall. intros v Hv.
    apply in_map_iff in Hv. destruct Hv as [ti [<- _]]. apply COS_bound. }
  split; [rewrite E1; apply T|]. split; [rewrite E2; apply T|].
  rewrite Es, E1, E2. generalize (t s) as g. intros g.
  unfold x_sum_of, tone. induction g as [|ti g IH]; [constructor|].
  cbn [map np_add]. constructor; [|exact IH].
  pose proof (COS_bound (2 * PI * f1 * ti)).
  pose proof (COS_bound (2 * PI * f2 * ti)). lra.
Qed.

(** The audio of a generated set is never clipped.  For a positive rate the
    three files are written; in each the integer samples are the truncated
    products [0.9 * x * 32767], all within [-29491, 29491], with two bytes
    per grid point. *)
Theorem audio_never_clips (fl : R -> R) (HR : Rounding fl)
  (fs duration f1 f2 : R) (s : signals) (sr : Z) :
  generate fs duration f1 f2 = Returned s -> (0 < sr)%Z ->
  exists a, write_audio fl s sr = Returned a /\
    read_int16 (frames (tone_f1 a))
    = map (fun v => py_int (fl (0.9 * v * 32767))) (x1 s) /\
    read_int16 (frames (tone_f2 a))
    = map (fun v => py_int (fl (0.9 * v * 32767))) (x2 s) /\
    read_int16 (frames (beat_signal a))
    = map (fun v => py_int (fl (0.9 * v * 32767))) (x_sum s) /\
    Forall (fun z => (-29491 <= z <= 29491)%Z)
      (read_int16 (frames (tone_f1 a)) ++ read_int16 (frames (tone_f2 a))
       ++ read_int16 (frames (beat_signal a))) /\
    length (frames (tone_f1 a)) = (2 * length (t s))%nat /\
    length (frames (tone_f2 a)) = (2 * length (t s))%nat /\
    length (frames (beat_signal a)) = (2 * length (t s))%nat.
Proof.
  intros H Hsr.
  destruct (generated_unit_range _ _ _ _ _ H) as [R1 [R2 R3]].
  destruct (generated_samples _ _ _ _ _ H) as [Ls _].
  destruct (generate_fields _ _ _ _ _ H) as [E1 [E2 _]].
  assert (L1 : length (x1 s) = length (t s)) by (rewrite E1; apply tone_length).
  assert (L2 : length (x2 s) = length (t s)) by (rewrite E2; apply tone_length).
  destruct (scaled_int_data fl HR _ R1) as [D1 B1].
  destruct (scaled_int_data fl HR _ R2) as [D2 B2].
  destruct (scaled_int_data fl HR _ R3) as [D3 B3].
  assert (Rd : forall x, Forall (fun v => -1 <= v <= 1) x ->
            read_int16 (tobytes (int_data_of fl (scaled 0.9 x)))
            = int_data_of fl (scaled 0.9 x)).
  { intros x Hx. apply tobytes_read.
    eapply Forall_impl; [|apply (scaled_int_data fl HR x Hx)].
    cbv beta. intros; lia. }
  unfold write_audio, write_wav. destruct (Z.leb_spec sr 0); [lia|].
  cbn [bind]. eexists. split; [reflexivity|].
  cbn [tone_f1 tone_f2 beat_signal frames].
  rewrite !Rd by assumption.
  rewrite !tobytes_length. unfold int_data_of at 7 8 9.
  rewrite !length_map, !scaled_length.
  repeat split; try assumption; try lia.
  rewrite !Forall_app. repeat split; assumption.
Qed.

Lemma audio_never_clips_witness :
  exists a, write_audio (fun r => r)
              (mkSignals [0 * (1 / 1)]
                 (tone 1 [0 * (1 / 1)]) (tone 1 [0 * (1 / 1)])
                 (x_sum_of (tone 1 [0 * (1 / 1)]) (tone 1 [0 * (1 / 1)]))
                 (Rabs (1 - 1))
                 (envelope_of (Rabs (1 - 1)) [0 * (1 / 1)])) 44100
            = Returned a /\
    length (frames (beat_signal a)) = 2%nat.
Proof.
  destruct (audio_never_clips (fun r => r) exact_rounding 1 1 1 1 _ 44100
              generate_unit) as [a [H1 [_ [_ [_ [_ [_ [_ H2]]]]]]]]; [lia|].
  exists a. split; [exact H1 | exact H2].
Defined.

(** ** More on the spectrum *)

Lemma spectrum_returned_inv (fs : R) (N : Z) (x : list R) (sp : spectrum_data) :
  spectrum fs N x = Returned sp -> fs <> 0 /\ (1 <= N)%Z.
Proof.
  unfold spectrum, rfft. destruct (Z.ltb_spec N 1); cbn [bind];
    [discriminate|].
  unfold py_div at 1. destruct (Req_EM_T fs 0); cbn [bind]; [discriminate|].
  intros _. split; assumption.
Qed.

Lemma half_bins (N : Z) :
  (1 <= N)%Z -> Z.even N = true -> INR (Z.to_nat N / 2) = IZR N / 2.
Proof.
  intros HN Hev. apply Z.even_spec in Hev. destruct Hev as [q Hq].
  change 2%nat with (Z.to_nat 2). rewrite <- Z2Nat.inj_div by lia.
  rewrite INR_IZR_INZ, Z2Nat.id by (apply Z.div_pos; lia).
  subst N. rewrite Z.mul_comm, Z.div_mul by lia.
  rewrite mult_IZR. field.
Qed.

(** Whenever the analyzer returns, the rate is not zero and the window has
    at least one point; there are [N/2 + 1] frequencies and as many
    magnitudes, frequency [k] is [k * fs / N], and for an even window the
    last one is half the rate. *)
Theorem spectrum_axis (fs : R) (N : Z) (x : list R) (sp : spectrum_data) :
  spectrum fs N x = Returned sp ->
  fs <> 0 /\ (1 <= N)%Z /\
  length (freqs sp) = (Z.to_nat N / 2 + 1)%nat /\
  length (amp sp) = length (freqs sp) /\
  (forall k, (k <= Z.to_nat N / 2)%nat ->
     nth k (freqs sp) 0 = INR k * fs / IZR N) /\
  (Z.even N = true -> nth (Z.to_nat N / 2) (freqs sp) 0 = fs / 2).
Proof.
  intros H. destruct (spectrum_returned_inv _ _ _ _ H) as [Hfs HN].
  destruct (spectrum_unfold fs N x Hfs HN) as [m [_ [_ Hs]]].
  rewrite H in Hs. inversion Hs; subst sp. cbn [freqs amp].
  assert (HNR : IZR N <> 0) by (apply not_0_IZR; lia).
  assert (F : forall k, (k <= Z.to_nat N / 2)%nat ->
            nth k (map (fun j => INR j * (1 / (IZR N * (1 / fs))))
                       (seq 0 (Z.to_nat N / 2 + 1))) 0
            = INR k * fs / IZR N).
  { intros k Hk.
    rewrite (nth_map_seq (fun j => INR j * (1 / (IZR N * (1 / fs))))) by lia.
    field. split; assumption. }
  split; [exact Hfs|]. split; [exact HN|].
  split; [rewrite length_map, length_seq; reflexivity|].
  split; [rewrite !length_map, !length_seq; reflexivity|].
  split; [exact F|].
  intros Hev. rewrite F by lia. rewrite (half_bins N HN Hev). field. exact HNR.
Qed.

Lemma spectrum_axis_witness :
  nth (Z.to_nat 2 / 2)
      [0 * (1 / (2 * (1 / 1))); 1 * (1 / (2 * (1 / 1)))] 0 = 1 / 2.
Proof.
  refine (proj2 (proj2 (proj2 (proj2 (proj2
            (spectrum_axis 1 2 [0; 0] (mkSpectrum _ [NaN; NaN]) _))))) _).
  - apply spectrum_zero_window; [lra | lia |].
    intros i Hi. change (Z.to_nat 2) with 2%nat in Hi.
    destruct i as [|[|i]]; [reflexivity | reflexivity | lia].
  - reflexivity.
Defined.

Lemma scaled_nth (c : R) (b : list R) (m : nat) :
  nth m (scaled c b) 0 = c * nth m b 0.
Proof.
  unfold scaled. destruct (Nat.lt_ge_cases m (length b)) as [L|G].
  - apply (nth_map_R (fun v => c * v)), L.
  - rewrite !nth_overflow by (try rewrite length_map; lia). lra.
Qed.

Lemma py_slice_map {A B : Type} (f : A -> B) (l : list A) (i j : Z) :
  py_slice (map f l) i j = map f (py_slice l i j).
Proof.
  unfold py_slice, len. rewrite length_map, skipn_map, firstn_map. reflexivity.
Qed.

Lemma pad_to_scaled (c : R) (n : nat) (a : list R) (m : nat) :
  nth m (pad_to n (scaled c a)) 0 = c * nth m (pad_to n a) 0.
Proof.
  unfold pad_to, scaled. rewrite length_map, firstn_map.
  destruct (Nat.lt_ge_cases m (length (firstn n a))) as [L|G].
  - rewrite !app_nth1 by (try rewrite length_map; exact L).
    apply (nth_map_R (fun v => c * v)), L.
  - rewrite !app_nth2 by (try rewrite length_map; exact G).
    rewrite length_map, !nth_repeat. lra.
Qed.

Lemma dft_bin_scaled (c : R) (a b : list R) (N k : nat) :
  (forall m, nth m b 0 = c * nth m a 0) ->
  np_abs_c (dft_bin b N k) = Rabs c * np_abs_c (dft_bin a N k).
Proof.
  intros H. unfold np_abs_c, dft_bin. cbn [re im].
  rewrite (big_sum_ext _
    (fun m => c * (nth m a 0 * cos (2 * PI * INR m * INR k / INR N))))
    by (intros; rewrite H; ring).
  rewrite (big_sum_ext (fun m => - (nth m b 0 * _))
    (fun m => c * - (nth m a 0 * sin (2 * PI * INR m * INR k / INR N))))
    by (intros; rewrite H; ring).
  rewrite !big_sum_scal.
  set (p := big_sum _ N). set (q := big_sum _ N).
  replace (c * p * (c * p) + c * q * (c * q))
    with (Rsqr c * (p * p + q * q)) by (unfold Rsqr; ring).
  rewrite sqrt_mult by (try apply Rle_0_sqr; nra).
  rewrite sqrt_Rsqr_abs. reflexivity.
Qed.

Lemma fold_left_Rmax_scaled (r : R) (l : list R) (x : R) :
  0 <= r ->
  fold_left Rmax (map (Rmult r) l) (r * x) = r * fold_left Rmax l x.
Proof.
  intros Hr. revert x. induction l as [|v l IH]; intros x; cbn [map fold_left].
  - reflexivity.
  - rewrite RmaxRmult by exact Hr. apply IH.
Qed.

Lemma np_divide_scaled (r v m : R) :
  0 < r -> np_divide (r * v) (r * m) = np_divide v m.
Proof.
  intros Hr.
  assert (Z : forall u, r * u = 0 <-> u = 0).
  { intros u. split; intros H; [|subst; ring].
    apply Rmult_integral in H. lra. }
  unfold np_divide.
  destruct (Req_EM_T m 0) as [M0|M0];
    destruct (Req_EM_T (r * m) 0) as [M1|M1].
  - destruct (Req_EM_T v 0) as [V0|V0];
      destruct (Req_EM_T (r * v) 0) as [V1|V1].
    + reflexivity.
    + exfalso. apply V1, Z, V0.
    + exfalso. apply V0, Z, V1.
    + destruct (Rlt_dec 0 v); destruct (Rlt_dec 0 (r * v)); try reflexivity;
        exfalso; nra.
  - exfalso. apply M1, Z, M0.
  - exfalso. apply M0, Z, M1.
  - f_equal. field. split; lra.
Qed.

(** The spectrum does not see the amplitude: multiplying the signal by a
    constant other than zero changes neither the frequencies, nor the
    normalised magnitudes, nor the failure. *)
Theorem spectrum_scale_invariant (fs : R) (N : Z) (c : R) (x : list R) :
  c <> 0 -> spectrum fs N (scaled c x) = spectrum fs N x.
Proof.
  intros Hc. assert (Hr : 0 < Rabs c) by (apply Rabs_pos_lt, Hc).
  unfold spectrum, rfft. destruct (N <? 1)%Z; [reflexivity|]. cbn [bind].
  destruct (py_div 1 fs) as [d|e]; cbn [bind]; [|reflexivity].
  destruct (rfftfreq N d) as [fr|e]; cbn [bind]; [|reflexivity].
  set (n := Z.to_nat N).
  assert (B : forall k,
            np_abs_c (dft_bin (pad_to n (py_slice (scaled c x) 0 N)) n k)
            = Rabs c * np_abs_c (dft_bin (pad_to n (py_slice x 0 N)) n k)).
  { intros k. apply dft_bin_scaled. intros m. unfold scaled at 1.
    rewrite py_slice_map. apply pad_to_scaled. }
  rewrite !map_map.
  rewrite (map_ext _ (fun k => Rabs c
             * np_abs_c (dft_bin (pad_to n (py_slice x 0 N)) n k)) B).
  rewrite <- (map_map (fun k => np_abs_c
                         (dft_bin (pad_to n (py_slice x 0 N)) n k))
                      (Rmult (Rabs c))).
  destruct (map (fun k => np_abs_c (dft_bin (pad_to n (py_slice x 0 N)) n k))
                (seq 0 (n / 2 + 1))) as [|v l] eqn:E; [reflexivity|].
  cbn [map np_max bind]. rewrite fold_left_Rmax_scaled by lra.
  do 2 f_equal. rewrite !map_map. apply map_ext. intros k. rewrite B.
  apply np_divide_scaled, Hr.
Qed.

Lemma spectrum_scale_invariant_witness :
  spectrum 44100 Nfft (scaled 0.5 [1; 2]) = spectrum 44100 Nfft [1; 2].
Proof.
  apply (spectrum_scale_invariant 44100 Nfft 0.5 [1; 2]). lra.
Defined.

(** A window with a sample other than zero has a proper spectrum. *)
Lemma spectrum_peak (fs : R) (N : Z) (x : list R) :
  fs <> 0 -> (1 <= N)%Z ->
  (exists i, (i < Z.to_nat N)%nat /\ nth i x 0 <> 0) ->
  exists sp, spectrum fs N x = Returned sp /\
    Forall (fun a => exists r, a = Fin r /\ 0 <= r <= 1) (amp sp) /\
    In (Fin 1) (amp sp).
Proof.
  intros Hfs HN [i0 [Hi0 Hx0]].
  destruct (spectrum_unfold fs N x Hfs HN) as [m [Hin [Hmax Hs]]].
  set (n := Z.to_nat N) in *.
  set (a := pad_to n (py_slice x 0 N)) in *.
  rewrite map_map in Hin, Hmax.
  assert (Hnn : forall k, 0 <= np_abs_c (dft_bin a n k))
    by (intros; apply np_abs_c_nonneg).
  assert (Hpos : 0 < m).
  { apply in_map_iff in Hin. destruct Hin as [k0 [Ek0 _]].
    pose proof (Hnn k0). destruct (Req_dec m 0) as [Z0|NZ]; [|lra].
    exfalso. apply Hx0. rewrite <- (window_nth x N i0) by (try lia; exact Hi0).
    apply (rfft_zero_signal a n); [|exact Hi0].
    intros k Hk. pose proof (Hnn k).
    assert (np_abs_c (dft_bin a n k) <= m); [|lra].
    apply Hmax, in_map_iff. exists k. split; [reflexivity|].
    apply in_seq. lia. }
  eexists. split; [exact Hs|]. cbn [amp]. rewrite map_map. split.
  - apply Forall_forall. intros v Hv. apply in_map_iff in Hv.
    destruct Hv as [k [<- Hk]]. eexists. split; [apply np_divide_fin; lra|].
    pose proof (Hnn k).
    assert (np_abs_c (dft_bin a n k) <= m)
      by (apply Hmax, in_map_iff; exists k; auto).
    split.
    + unfold Rdiv. apply Rmult_le_pos; [assumption|].
      left. apply Rinv_0_lt_compat, Hpos.
    + apply Rmult_le_reg_r with m; [exact Hpos|].
      unfold Rdiv. rewrite Rmult_assoc, Rinv_l by lra. lra.
  - apply in_map_iff in Hin. destruct Hin as [k [Ek Hk]].
    apply in_map_iff. exists k. split; [|exact Hk].
    rewrite np_divide_fin by lra. rewrite Ek. f_equal. field. lra.
Qed.

Lemma generated_first_sample (fs duration f1 f2 : R) (s : signals) :
  generate fs duration f1 f2 = Returned s ->
  (0 < length (t s))%nat -> nth 0 (x_sum s) 0 = 1.
Proof.
  intros H Hpos. pose proof (generate_grid_start _ _ _ _ _ H Hpos) as T0.
  destruct (generated_samples _ _ _ _ _ H) as [_ Hs].
  destruct (Hs 0%nat Hpos) as [A1 [A2 As]].
  rewrite T0, Rmult_0_r, cos_0 in A1, A2. rewrite As, A1, A2. lra.
Qed.

(** The half-sum of a non-empty generated set never has a degenerate
    spectrum: its first sample is 1, so for every rate other than zero and
    every window the magnitudes are numbers of [0, 1] and one of them is 1. *)
Theorem generated_spectrum_proper
  (fs duration f1 f2 : R) (s : signals) (rate : R) (N : Z) :
  generate fs duration f1 f2 = Returned s -> (0 < length (t s))%nat ->
  rate <> 0 -> (1 <= N)%Z ->
  exists sp, spectrum rate N (x_sum s) = Returned sp /\
    Forall (fun a => exists r, a = Fin r /\ 0 <= r <= 1) (amp sp) /\
    In (Fin 1) (amp sp).
Proof.
  intros H Hpos Hr HN. apply spectrum_peak; try assumption.
  exists 0%nat. split; [lia|].
  rewrite (generated_first_sample _ _ _ _ _ H Hpos). lra.
Qed.

Lemma generated_spectrum_proper_witness :
  exists sp, spectrum 1 Nfft
               (x_sum_of (tone 1 [0 * (1 / 1)]) (tone 1 [0 * (1 / 1)]))
             = Returned sp /\ In (Fin 1) (amp sp).
Proof.
  destruct (generated_spectrum_proper 1 1 1 1 _ 1 Nfft generate_unit)
    as [sp [H1 [_ H2]]].
  - simpl. lia.
  - lra.
  - unfold Nfft. simpl. lia.
  - exists sp. split; [exact H1 | exact H2].
Defined.

(** ** More on slices *)

Lemma py_slice_length_eq {A B : Type} (l1 : list A) (l2 : list B) (i j : Z) :
  length l1 = length l2 ->
  length (py_slice l1 i j) = length (py_slice l2 i j).
Proof.
  intros H. unfold py_slice, len.
  rewrite !length_firstn, !length_skipn, H. reflexivity.
Qed.

Lemma py_slice_nth {A : Type} (l : list A) (i j : Z) (d : A) (m : nat) :
  (m < length (py_slice l i j))%nat ->
  nth m (py_slice l i j) d
  = nth (Z.to_nat (slice_bound (len l) i) + m) l d.
Proof.
  unfold py_slice. intros H. rewrite length_firstn in H.
  rewrite nth_firstn. destruct (Nat.ltb_spec m (Z.to_nat
    (slice_bound (len l) j - slice_bound (len l) i))); [|lia].
  apply nth_skipn.
Qed.

Lemma py_slice_bound {A : Type} (l : list A) (i j : Z) (m : nat) :
  (m < length (py_slice l i j))%nat ->
  (Z.to_nat (slice_bound (len l) i) + m < length l)%nat.
Proof.
  unfold py_slice. rewrite length_firstn, length_skipn. lia.
Qed.

Lemma py_index_nth {A : Type} (l : list A) (i : Z) (d : A) :
  (0 <= i < len l)%Z -> py_index l i = Returned (nth (Z.to_nat i) l d).
Proof.
  intros H. unfold py_index.
  destruct (Z.ltb_spec i 0); [lia|].
  destruct (Z.leb_spec 0 i); [|lia].
  destruct (Z.ltb_spec i (len l)); [|lia]. cbn [andb].
  destruct (nth_error l (Z.to_nat i)) eqn:E.
  - f_equal. symmetry. apply nth_error_nth, E.
  - apply nth_error_None in E. unfold len in H. lia.
Qed.

Lemma py_index_outside {A : Type} (l : list A) (i : Z) :
  (i < - len l \/ len l <= i)%Z -> py_index l i = Raised IndexError.
Proof.
  intros H. unfold py_index. assert (0 <= len l)%Z by (unfold len; lia).
  destruct (Z.ltb_spec i 0).
  - destruct (Z.leb_spec 0 (i + len l)); [lia|]. reflexivity.
  - destruct (Z.leb_spec 0 i); [|lia].
    destruct (Z.ltb_spec i (len l)); [lia|]. reflexivity.
Qed.

Lemma update_unfold (t x_sum envelope : list R) (window step frame : Z)
  (fr : frame_data) :
  update t x_sum envelope window step frame = Returned fr ->
  let i := fst (frame_bounds (len t) window step frame) in
  let j := snd (frame_bounds (len t) window step frame) in
  exists t_i, py_index t i = Returned t_i /\
    fr = mkFrame (map (fun v => v - t_i) (py_slice t i j))
                 (py_slice x_sum i j) (py_slice envelope i j)
                 (map Ropp (py_slice envelope i j)).
Proof.
  unfold update. destruct (frame_bounds _ _ _ _) as [i j]. cbn [fst snd].
  destruct (py_index t i) as [ti|e]; cbn [bind]; [|discriminate].
  intros H. inversion H. eauto.
Qed.

(** ** Where the frames start *)

Lemma step_of_inv (n window frames step : Z) :
  step_of n window frames = Returned step ->
  frames <> 0%Z /\ step = Z.max 1 ((n - window) / frames).
Proof.
  unfold step_of. destruct (Z.eqb_spec frames 0); [discriminate|].
  intros H. inversion H. auto.
Qed.

(** Successive frames start at most [step] apart and never move back.
    When the signal has room for [F] distinct starts ([F <= N - W]) no frame
    is clamped: frame [k] starts at [k * step] and ends inside the signal.
    Otherwise the step is 1 and every frame from number [N - W] on is the
    last window. *)
Theorem frame_starts (N W F step : Z) :
  (0 <= W <= N)%Z -> (0 < F)%Z ->
  step_of N W F = Returned step ->
  let start := fun k => fst (frame_bounds N W step k) in
  (forall k, (0 <= k)%Z -> (0 <= start (k + 1) - start k <= step)%Z) /\
  ((F <= N - W)%Z ->
   forall k, (0 <= k < F)%Z ->
     start k = (k * step)%Z /\ (start k + W <= N)%Z /\
     (start k < start (k + 1) \/ k = (F - 1)%Z)%Z) /\
  ((N - W < F)%Z ->
   step = 1%Z /\ forall k, (N - W <= k)%Z -> start k = (N - W)%Z).
Proof.
  intros HW HF Hs start. destruct (step_of_inv _ _ _ _ Hs) as [_ Es].
  assert (H1 : (1 <= step)%Z) by lia.
  assert (St : forall k, start k = Z.min (k * step) (N - W))
    by (intros; apply frame_bounds_start).
  split; [|split].
  - intros k Hk. rewrite !St. nia.
  - intros HF'. 
    assert (Hq : (1 <= (N - W) / F)%Z) by (apply Z.div_le_lower_bound; lia).
    assert (Hm : (F * ((N - W) / F) <= N - W)%Z)
      by (apply Z.mul_div_le; lia).
    assert (Es' : step = ((N - W) / F)%Z) by lia.
    intros k Hk. rewrite !St.
    assert (Hks : (k * step <= N - W - step)%Z) by nia.
    split; [lia|]. split; [lia|].
    destruct (Z.eq_dec k (F - 1)) as [->|NE]; [right; reflexivity|].
    left. assert ((k + 1) * step <= N - W - step)%Z by nia. nia.
  - intros HF'.
    assert (Hq : ((N - W) / F = 0)%Z) by (apply Z.div_small; lia).
    assert (E1 : step = 1%Z) by lia.
    split; [exact E1|]. intros k Hk. rewrite St, E1. lia.
Qed.

Lemma frame_starts_witness :
  fst (frame_bounds 1000 100 90 9) = (9 * 90)%Z /\
  (fst (frame_bounds 1000 100 90 9) + 100 <= 1000)%Z.
Proof.
  destruct (frame_starts 1000 100 10 90) as [_ [H _]];
    [lia | lia | reflexivity |].
  cbv zeta in H. destruct (H ltac:(lia) 9%Z ltac:(lia)) as [A [B _]].
  split; [exact A | exact B].
Defined.

(** A grid of four points with a beat of two steps. *)
Lemma generate_four_points :
  generate 4 1 0 2
  = Returned (mkSignals [0 * (1 / 4); 1 * (1 / 4); (1 + 1) * (1 / 4);
                         (1 + 1 + 1) * (1 / 4)]
                (tone 0 [0 * (1 / 4); 1 * (1 / 4); (1 + 1) * (1 / 4);
                         (1 + 1 + 1) * (1 / 4)])
                (tone 2 [0 * (1 / 4); 1 * (1 / 4); (1 + 1) * (1 / 4);
                         (1 + 1 + 1) * (1 / 4)])
                (x_sum_of
                   (tone 0 [0 * (1 / 4); 1 * (1 / 4); (1 + 1) * (1 / 4);
                            (1 + 1 + 1) * (1 / 4)])
                   (tone 2 [0 * (1 / 4); 1 * (1 / 4); (1 + 1) * (1 / 4);
                            (1 + 1 + 1) * (1 / 4)]))
                (Rabs (2 - 0))
                (envelope_of (Rabs (2 - 0))
                   [0 * (1 / 4); 1 * (1 / 4); (1 + 1) * (1 / 4);
                    (1 + 1 + 1) * (1 / 4)])).
Proof.
  unfold generate, time_grid.
  replace (4 * 1) with (IZR 4) by (simpl; lra).
  rewrite (py_int_IZR 4). reflexivity.
Qed.

(** ** What a frame holds *)

Lemma frame_bounds_inside (N W step k : Z) :
  (0 < W <= N)%Z -> (1 <= step)%Z -> (0 <= k)%Z ->
  exists i, frame_bounds N W step k = (i, (i + W)%Z) /\ (0 <= i <= N - W)%Z.
Proof.
  intros HW Hs Hk. exists (fst (frame_bounds N W step k)).
  pose proof (frame_bounds_start N W step k) as A.
  pose proof (frame_bounds_stop N W step k) as B.
  split.
  - rewrite <- B. apply surjective_pairing.
  - rewrite A. nia.
Qed.

(** Every frame has the same time axis.  On a generated grid, with a window
    that fits, frame [k] is returned for every [k >= 0], and its times are
    [0, h, 2h, ...] with [h] the spacing of the grid, whatever [k] is. *)
Theorem frame_time_axis
  (fs duration f1 f2 : R) (s : signals) (W F step k : Z) :
  generate fs duration f1 f2 = Returned s ->
  (0 < W <= len (t s))%Z ->
  step_of (len (t s)) W F = Returned step -> (0 <= k)%Z ->
  exists fr,
    update (t s) (x_sum s) (envelope s) W step k = Returned fr /\
    len (seg_t fr) = W /\
    forall j, (j < length (seg_t fr))%nat ->
      nth j (seg_t fr) 0 = INR j * (duration / IZR (len (t s))).
Proof.
  intros H HW Hs Hk.
  destruct (step_of_inv _ _ _ _ Hs) as [_ Es].
  destruct (frame_bounds_inside (len (t s)) W step k) as [i [Hb Hi]];
    try lia.
  destruct (generate_fields _ _ _ _ _ H) as [_ [_ [_ [_ [_ Hg]]]]].
  unfold time_grid in Hg. destruct (linspace0_inv _ _ _ Hg) as [_ [Hl Hn]].
  rewrite <- Hl in Hn.
  unfold update. rewrite Hb.
  rewrite (py_index_nth (t s) i 0) by lia. cbn [bind].
  eexists. split; [reflexivity|]. cbn [seg_t].
  assert (L : len (py_slice (t s) i (i + W)) = W).
  { rewrite py_slice_length; lia. }
  split; [unfold len in *; rewrite length_map; exact L|].
  intros j Hj. rewrite length_map in Hj.
  rewrite (nth_map_R (fun v => v - nth (Z.to_nat i) (t s) 0)) by exact Hj.
  rewrite py_slice_nth by exact Hj.
  pose proof (py_slice_bound _ _ _ _ Hj) as Hin.
  rewrite slice_bound_inside in * by lia.
  rewrite Hn by exact Hin. rewrite Hn by (unfold len in *; lia).
  rewrite plus_INR. ring.
Qed.

Lemma frame_time_axis_witness :
  exists fr,
    update [0 * (1 / 1)]
      (x_sum_of (tone 1 [0 * (1 / 1)]) (tone 1 [0 * (1 / 1)]))
      (envelope_of (Rabs (1 - 1)) [0 * (1 / 1)]) 1 1 7 = Returned fr /\
    len (seg_t fr) = 1%Z.
Proof.
  destruct (frame_time_axis 1 1 1 1 _ 1 40 1 7 generate_unit)
    as [fr [H1 [H2 _]]]; try reflexivity; try (unfold len; simpl; lia).
  exists fr. split; [exact H1 | exact H2].
Defined.

Lemma generated_lengths (fs duration f1 f2 : R) (s : signals) :
  generate fs duration f1 f2 = Returned s ->
  length (x_sum s) = length (t s) /\ length (envelope s) = length (t s).
Proof.
  intros H.
  destruct (generate_fields _ _ _ _ _ H) as [_ [_ [_ [_ [Ee _]]]]].
  destruct (generated_samples _ _ _ _ _ H) as [Ls _].
  split; [exact Ls|]. rewrite Ee. apply length_map.
Qed.

Lemma generated_envelope_range (fs duration f1 f2 : R) (s : signals) :
  generate fs duration f1 f2 = Returned s ->
  Forall (fun e => 0 <= e <= 1) (envelope s).
Proof.
  intros H.
  destruct (generate_fields _ _ _ _ _ H) as [_ [_ [_ [_ [Ee _]]]]].
  rewrite Ee. unfold envelope_of. apply Forall_forall.
  intros e He. apply in_map_iff in He. destruct He as [ti [<- _]].
  unfold envelope_at. split; [apply Rabs_pos|]. apply Rabs_le, COS_bound.
Qed.

Lemma py_slice_In {A : Type} (l : list A) (i j : Z) (a : A) :
  In a (py_slice l i j) -> In a l.
Proof.
  unfold py_slice. intros H.
  set (lo := Z.to_nat (slice_bound (len l) i)) in *.
  rewrite <- (firstn_skipn lo l). apply in_or_app. right.
  set (n := Z.to_nat (slice_bound (len l) j - slice_bound (len l) i)) in *.
  rewrite <- (firstn_skipn n (skipn lo l)). apply in_or_app. left. exact H.
Qed.

Lemma py_slice_Forall {A : Type} (P : A -> Prop) (l : list A) (i j : Z) :
  Forall P l -> Forall P (py_slice l i j).
Proof.
  rewrite !Forall_forall. intros H a Ha. apply H. eapply py_slice_In, Ha.
Qed.

(** Whatever the window, the step and the frame number, a frame that
    [update] returns on a generated set has four sequences of one length;
    its lower curve is the opposite of its upper curve; the signal stays in
    [-1, 1], the upper curve in [0, 1] and the lower one in [-1, 0], all
    inside the vertical range from -1.2 to 1.2 of line 106. *)
Theorem frame_within_axes
  (fs duration f1 f2 : R) (s : signals) (W step k : Z) (fr : frame_data) :
  generate fs duration f1 f2 = Returned s ->
  update (t s) (x_sum s) (envelope s) W step k = Returned fr ->
  length (seg_sum fr) = length (seg_t fr) /\
  length (seg_env fr) = length (seg_t fr) /\
  length (seg_envm fr) = length (seg_t fr) /\
  seg_envm fr = map Ropp (seg_env fr) /\
  Forall (fun v => -1 <= v <= 1) (seg_sum fr) /\
  Forall (fun v => 0 <= v <= 1) (seg_env fr) /\
  Forall (fun v => -1 <= v <= 0) (seg_envm fr).
Proof.
  intros H Hu.
  destruct (generated_lengths _ _ _ _ _ H) as [Lx Le].
  destruct (generated_unit_range _ _ _ _ _ H) as [_ [_ Rx]].
  pose proof (generated_envelope_range _ _ _ _ _ H) as Re.
  destruct (update_unfold _ _ _ _ _ _ _ Hu) as [ti [_ ->]].
  cbn [seg_t seg_sum seg_env seg_envm].
  set (i := fst (frame_bounds (len (t s)) W step k)).
  set (j := snd (frame_bounds (len (t s)) W step k)).
  rewrite !length_map.
  assert (L1 : length (py_slice (x_sum s) i j) = length (py_slice (t s) i j))
    by (apply py_slice_length_eq, Lx).
  assert (L2 : length (py_slice (envelope s) i j)
               = length (py_slice (t s) i j))
    by (apply py_slice_length_eq, Le).
  split; [exact L1|]. split; [exact L2|]. split; [exact L2|].
  split; [reflexivity|].
  split; [apply py_slice_Forall, Rx|].
  pose proof (py_slice_Forall _ (envelope s) i j Re) as Rs.
  split; [exact Rs|].
  apply Forall_forall. intros v Hv. apply in_map_iff in Hv.
  destruct Hv as [e [<- He]]. rewrite Forall_forall in Rs.
  specialize (Rs e He). lra.
Qed.

Lemma frame_within_axes_witness :
  exists fr,
    update [0 * (1 / 4); 1 * (1 / 4); (1 + 1) * (1 / 4); (1 + 1 + 1) * (1 / 4)]
      (x_sum_of
         (tone 0 [0 * (1 / 4); 1 * (1 / 4); (1 + 1) * (1 / 4);
                  (1 + 1 + 1) * (1 / 4)])
         (tone 2 [0 * (1 / 4); 1 * (1 / 4); (1 + 1) * (1 / 4);
                  (1 + 1 + 1) * (1 / 4)]))
      (envelope_of (Rabs (2 - 0))
         [0 * (1 / 4); 1 * (1 / 4); (1 + 1) * (1 / 4); (1 + 1 + 1) * (1 / 4)])
      2 1 1 = Returned fr /\
    length (seg_sum fr) = 2%nat /\
    Forall (fun v => -1 <= v <= 1) (seg_sum fr) /\
    Forall (fun v => 0 <= v <= 1) (seg_env fr).
Proof.
  eexists. split; [reflexivity|].
  destruct (frame_within_axes 4 1 0 2 _ 2 1 1 _ generate_four_points eq_refl)
    as [_ [_ [_ [_ [A [B _]]]]]].
  split; [reflexivity|]. split; [exact A | exact B].
Defined.

(** ** A window longer than the signal *)

Lemma py_range_pos (n : Z) :
  (0 < n)%Z -> exists l, py_range n = 0%Z :: l.
Proof.
  intros H. unfold py_range. destruct (Z.to_nat n) as [|m] eqn:E; [lia|].
  cbn [seq map]. eauto.
Qed.

Lemma frame_bounds_oversize (N W k : Z) :
  (N < W)%Z -> (0 <= k)%Z ->
  frame_bounds N W 1 k = ((N - W)%Z, N).
Proof.
  intros HW Hk. unfold frame_bounds.
  destruct (Z.leb_spec (k * 1 + W) N); [lia|].
  destruct (Z.eqb_spec (N - k * 1) W); [lia|]. reflexivity.
Qed.

(** No window is refused.  A window longer than the signal but at most
    twice as long gives [F] equal frames holding the last [W - N] samples,
    not [W]; a window more than twice as long, or any window on an empty
    signal, makes the first frame fail with [IndexError]. *)
Theorem oversize_window (t x_sum envelope : list R) (W F : Z) :
  length x_sum = length t -> length envelope = length t -> (0 < F)%Z ->
  ((len t < W <= 2 * len t)%Z ->
   exists frs, window_sampler t x_sum envelope W F = Returned frs /\
     len frs = F /\
     Forall (fun fr => seg_sum fr = py_slice x_sum (len t - W) (len t) /\
                       len (seg_sum fr) = (W - len t)%Z /\
                       len (seg_t fr) = (W - len t)%Z) frs) /\
  ((2 * len t < W \/ (len t = 0 /\ 0 <= W))%Z ->
   window_sampler t x_sum envelope W F = Raised IndexError).
Proof.
  intros Hx He HF.
  assert (HN : (0 <= len t)%Z) by (unfold len; lia).
  split.
  - intros HW. unfold window_sampler, step_of.
    destruct (Z.eqb_spec F 0); [lia|]. cbn [bind].
    assert (Hq : ((len t - W) / F < 0)%Z) by (apply Z.div_lt_upper_bound; lia).
    rewrite Z.max_l by lia.
    assert (Lx : len (py_slice x_sum (len t - W) (len t)) = (W - len t)%Z).
    { unfold py_slice, slice_bound, len in *. rewrite Hx.
      destruct (Z.ltb_spec (Z.of_nat (length t) - W) 0); [|lia].
      destruct (Z.ltb_spec (Z.of_nat (length t)) 0); [lia|].
      rewrite length_firstn, length_skipn. lia. }
    assert (Lt : len (py_slice t (len t - W) (len t)) = (W - len t)%Z).
    { unfold len in *. rewrite (py_slice_length_eq t x_sum) by lia.
      exact Lx. }
    destruct (mapM_returns (update t x_sum envelope W 1)
                (fun fr => seg_sum fr = py_slice x_sum (len t - W) (len t) /\
                           len (seg_sum fr) = (W - len t)%Z /\
                           len (seg_t fr) = (W - len t)%Z)
                (py_range F)) as [frs [Hf [Hl HP]]].
    + intros k Hk. apply py_range_In in Hk.
      unfold update. rewrite frame_bounds_oversize by lia.
      assert (Hidx : exists ti, py_index t (len t - W) = Returned ti).
      { unfold py_index. destruct (Z.ltb_spec (len t - W) 0); [|lia].
        destruct (Z.leb_spec 0 (len t - W + len t)); [|lia].
        destruct (Z.ltb_spec (len t - W + len t) (len t)); [|lia].
        cbn [andb]. destruct (nth_error t _) eqn:E; [eauto|].
        apply nth_error_None in E. unfold len in *. lia. }
      destruct Hidx as [ti ->]. cbn [bind]. eexists. split; [reflexivity|].
      cbn [seg_sum seg_t]. split; [reflexivity|]. split; [exact Lx|].
      unfold len in *. rewrite length_map. exact Lt.
    + exists frs. split; [exact Hf|]. split; [|exact HP].
      unfold len in *. rewrite Hl. fold (len (py_range F)).
      rewrite py_range_length. lia.
  - intros HW. unfold window_sampler, step_of.
    destruct (Z.eqb_spec F 0); [lia|]. cbn [bind].
    destruct (py_range_pos F HF) as [l ->]. cbn [mapM].
    assert (U : update t x_sum envelope W
                  (Z.max 1 ((len t - W) / F)) 0 = Raised IndexError).
    { unfold update.
      destruct (frame_bounds (len t) W (Z.max 1 ((len t - W) / F)) 0)
        as [i j] eqn:Eb.
      assert (Ei : i = Z.min (0 * Z.max 1 ((len t - W) / F)) (len t - W)).
      { rewrite <- frame_bounds_start, Eb. reflexivity. }
      rewrite py_index_outside; [reflexivity|]. lia. }
    rewrite U. reflexivity.
Qed.

Lemma oversize_window_witness :
  window_sampler [0; 1; 2] [5; 6; 7] [8; 9; 10] 7 3 = Raised IndexError.
Proof.
  apply (oversize_window [0; 1; 2] [5; 6; 7] [8; 9; 10] 7 3);
    try reflexivity; try lia.
  left. unfold len. simpl. lia.
Defined.

(** ** The figures *)

Lemma plt_plot_same {B : Type} (x : list R) (y : list B) :
  length x = length y -> plt_plot x y = Returned (mkSeries x y).
Proof.
  intros H. unfold plt_plot. rewrite H, Nat.eqb_refl. reflexivity.
Qed.

Lemma py_slice_prefix_len {A : Type} (l : list A) (n : Z) :
  (0 <= n)%Z -> len (py_slice l 0 n) = Z.min n (len l).
Proof.
  intros H. rewrite py_slice_prefix by exact H. unfold len.
  rewrite length_firstn. lia.
Qed.

Lemma short_window_returns (fs duration f1 f2 : R) (s : signals) (rate : Z) :
  generate fs duration f1 f2 = Returned s ->
  short_window_figure s rate
  = Returned
      [mkSeries (py_slice (t s) 0 (py_int (0.05 * IZR rate)))
                (py_slice (x1 s) 0 (py_int (0.05 * IZR rate)));
       mkSeries (py_slice (t s) 0 (py_int (0.05 * IZR rate)))
                (py_slice (x2 s) 0 (py_int (0.05 * IZR rate)));
       mkSeries (py_slice (t s) 0 (py_int (0.05 * IZR rate)))
                (py_slice (x_sum s) 0 (py_int (0.05 * IZR rate)))].
Proof.
  intros H. destruct (generate_fields _ _ _ _ _ H) as [E1 [E2 _]].
  destruct (generated_samples _ _ _ _ _ H) as [Ls _].
  unfold short_window_figure.
  rewrite !plt_plot_same; [reflexivity | | |];
    apply py_slice_length_eq; symmetry;
    [exact Ls | rewrite E2; apply tone_length | rewrite E1; apply tone_length].
Qed.

Lemma beats_returns (fs duration f1 f2 : R) (s : signals) (rate : Z) :
  generate fs duration f1 f2 = Returned s ->
  beats_figure s rate
  = Returned
      [mkSeries (py_slice (t s) 0 (py_int (2.0 * IZR rate)))
                (py_slice (x_sum s) 0 (py_int (2.0 * IZR rate)));
       mkSeries (py_slice (t s) 0 (py_int (2.0 * IZR rate)))
                (py_slice (envelope s) 0 (py_int (2.0 * IZR rate)));
       mkSeries (py_slice (t s) 0 (py_int (2.0 * IZR rate)))
                (map Ropp (py_slice (envelope s) 0 (py_int (2.0 * IZR rate))))].
Proof.
  intros H. destruct (generated_lengths _ _ _ _ _ H) as [Lx Le].
  unfold beats_figure.
  rewrite !plt_plot_same; [reflexivity | | |]; try rewrite length_map;
    apply py_slice_length_eq; symmetry; assumption.
Qed.

(** The two time-domain figures of a generated set are always drawn: in no
    call of [plot] do the two sequences differ in length, whatever the rate.
    For a rate that is not negative each curve of the first figure has
    [min(int(0.05*rate), N)] points.  In the second figure the three curves
    share their abscissas, the third is the opposite of the second, the
    signal stays in [-1, 1] and the envelope in [0, 1]. *)
Theorem figures_drawn (fs duration f1 f2 : R) (s : signals) (rate : Z) :
  generate fs duration f1 f2 = Returned s ->
  (exists fig, short_window_figure s rate = Returned fig /\
     length fig = 3%nat /\
     Forall (fun p => length (ys p) = length (xs p) /\
                      ((0 <= rate)%Z ->
                       len (xs p)
                       = Z.min (py_int (0.05 * IZR rate)) (len (t s)))) fig) /\
  (exists a b c, beats_figure s rate = Returned [a; b; c] /\
     length (ys a) = length (xs a) /\ length (ys b) = length (xs a) /\
     length (ys c) = length (xs a) /\ xs b = xs a /\ xs c = xs a /\
     ys c = map Ropp (ys b) /\
     Forall (fun v => -1 <= v <= 1) (ys a) /\
     Forall (fun v => 0 <= v <= 1) (ys b)).
Proof.
  intros H. destruct (generate_fields _ _ _ _ _ H) as [E1 [E2 _]].
  destruct (generated_lengths _ _ _ _ _ H) as [Lx Le].
  destruct (generated_unit_range _ _ _ _ _ H) as [_ [_ Rx]].
  pose proof (generated_envelope_range _ _ _ _ _ H) as Re.
  assert (L1 : length (x1 s) = length (t s)) by (rewrite E1; apply tone_length).
  assert (L2 : length (x2 s) = length (t s)) by (rewrite E2; apply tone_length).
  split.
  - eexists. split; [apply (short_window_returns _ _ _ _ _ _ H)|].
    split; [reflexivity|].
    assert (P : (0 <= rate)%Z ->
              len (py_slice (t s) 0 (py_int (0.05 * IZR rate)))
              = Z.min (py_int (0.05 * IZR rate)) (len (t s))).
    { intros Hr. apply py_slice_prefix_len.
      assert (0 <= 0.05 * IZR rate).
      { apply Rmult_le_pos; [lra|]. apply IZR_le, Hr. }
      rewrite py_int_nonneg by assumption. apply Int_part_nonneg. assumption. }
    repeat constructor; cbn [xs ys]; try exact P;
      apply py_slice_length_eq; assumption.
  - do 3 eexists. split; [apply (beats_returns _ _ _ _ _ _ H)|].
    cbn [xs ys]. set (n := py_int (2.0 * IZR rate)).
    assert (A : length (py_slice (x_sum s) 0 n) = length (py_slice (t s) 0 n))
      by (apply py_slice_length_eq, Lx).
    assert (B : length (py_slice (envelope s) 0 n)
                = length (py_slice (t s) 0 n))
      by (apply py_slice_length_eq, Le).
    split; [exact A|]. split; [exact B|].
    split; [rewrite length_map; exact B|].
    split; [reflexivity|]. split; [reflexivity|]. split; [reflexivity|].
    split; apply py_slice_Forall; assumption.
Qed.

Lemma figures_drawn_witness :
  exists a b c,
    beats_figure
      (mkSignals [0 * (1 / 4); 1 * (1 / 4); (1 + 1) * (1 / 4);
                  (1 + 1 + 1) * (1 / 4)]
         (tone 0 [0 * (1 / 4); 1 * (1 / 4); (1 + 1) * (1 / 4);
                  (1 + 1 + 1) * (1 / 4)])
         (tone 2 [0 * (1 / 4); 1 * (1 / 4); (1 + 1) * (1 / 4);
                  (1 + 1 + 1) * (1 / 4)])
         (x_sum_of
            (tone 0 [0 * (1 / 4); 1 * (1 / 4); (1 + 1) * (1 / 4);
                     (1 + 1 + 1) * (1 / 4)])
            (tone 2 [0 * (1 / 4); 1 * (1 / 4); (1 + 1) * (1 / 4);
                     (1 + 1 + 1) * (1 / 4)]))
         (Rabs (2 - 0))
         (envelope_of (Rabs (2 - 0))
            [0 * (1 / 4); 1 * (1 / 4); (1 + 1) * (1 / 4);
             (1 + 1 + 1) * (1 / 4)])) 4 = Returned [a; b; c] /\
    length (ys a) = length (xs a) /\
    ys c = map Ropp (ys b) /\
    Forall (fun v => -1 <= v <= 1) (ys a).
Proof.
  destruct (figures_drawn 4 1 0 2 _ 4 generate_four_points)
    as [_ [a [b [c [H1 [H2 [_ [_ [_ [_ [H3 [H4 _]]]]]]]]]]]].
  exists a, b, c. repeat split; assumption.
Defined.

(** ** The whole script *)

Lemma spectrum_lengths (fs : R) (N : Z) (x : list R) (sp : spectrum_data) :
  spectrum fs N x = Returned sp -> length (freqs sp) = length (amp sp).
Proof.
  intros H. destruct (spectrum_returned_inv _ _ _ _ H) as [Hfs HN].
  destruct (spectrum_unfold fs N x Hfs HN) as [m [_ [_ Hs]]].
  rewrite H in Hs. inversion Hs; subst sp. cbn [freqs amp].
  rewrite !length_map. reflexivity.
Qed.

Lemma write_audio_returns (fl : R -> R) (s : signals) (sr : Z) :
  (0 < sr)%Z ->
  write_audio fl s sr
  = Returned
      (mkAudio (mkWav 1 2 sr (tobytes (int_data_of fl (scaled 0.9 (x1 s)))))
               (mkWav 1 2 sr (tobytes (int_data_of fl (scaled 0.9 (x2 s)))))
               (mkWav 1 2 sr (tobytes (int_data_of fl (scaled 0.9 (x_sum s)))))).
Proof.
  intros H. unfold write_audio, write_wav.
  destruct (Z.leb_spec sr 0); [lia|]. reflexivity.
Qed.

Lemma Nfft_pos : (1 <= Nfft)%Z.
Proof. unfold Nfft. simpl. lia. Qed.

(** For a rate of at least 20 Hz and a duration of at least 50 ms, with the
    rate below [2^31] and fewer than [2^31 - 19] samples so that the audio
    header fits its 32-bit fields, nothing in the script raises: the window
    [int(0.05*fs)] is at least one sample and fits the grid, the three audio
    files hold two bytes per grid point, the spectrum has its maximum 1, and
    the animation has 40 frames of one window each, drawn over
    [0, window/fs]. *)
Theorem main_returns (fl : R -> R) (HR : Rounding fl)
  (fs : Z) (duration f1 f2 : R) :
  (20 <= fs < 2147483648)%Z -> 0.05 <= duration ->
  IZR fs * duration < 2147483629 ->
  let window := py_int (0.05 * IZR fs) in
  exists r, main fl fs duration f1 f2 = Returned r /\
    generate (IZR fs) duration f1 f2 = Returned (r_signals r) /\
    (1 <= window <= len (t (r_signals r)))%Z /\
    (len (t (r_signals r)) < 2147483629)%Z /\
    write_audio fl (r_signals r) fs = Returned (r_audio r) /\
    length (frames (beat_signal (r_audio r)))
    = (2 * length (t (r_signals r)))%nat /\
    In (Fin 1) (amp (r_spectrum r)) /\
    r_xlim r = IZR window / IZR fs /\
    len (r_frames r) = 40%Z /\
    Forall (fun fr => len (seg_t fr) = window /\ len (seg_sum fr) = window /\
                      len (seg_env fr) = window /\ len (seg_envm fr) = window)
      (r_frames r).
Proof.
  intros Hfs Hd Hlen window.
  assert (HfsR : 20 <= IZR fs) by (apply IZR_le; lia).
  destruct (generate_returns (IZR fs) duration f1 f2) as [s Hs]; try lra.
  destruct (generate_fields _ _ _ _ _ Hs) as [_ [_ [_ [_ [_ Hg]]]]].
  unfold time_grid in Hg. destruct (linspace0_inv _ _ _ Hg) as [_ [Hl _]].
  assert (Hp : 0 <= IZR fs * duration) by nra.
  rewrite py_int_nonneg in Hl by exact Hp.
  destruct (generated_lengths _ _ _ _ _ Hs) as [Lx Le].
  assert (Hw1 : (1 <= window)%Z).
  { unfold window. rewrite py_int_nonneg by lra.
    rewrite <- (Int_part_IZR 1). apply Int_part_mono. lra. }
  assert (Hw2 : (window <= len (t s))%Z).
  { unfold window. rewrite py_int_nonneg by lra. rewrite Hl.
    apply Int_part_mono. nra. }
  assert (Hpos : (0 < length (t s))%nat) by (unfold len in *; lia).
  destruct (spectrum_peak (IZR fs) Nfft (x_sum s)) as [sp [Hsp [_ Hone]]];
    [lra | apply Nfft_pos | |].
  { exists 0%nat. split; [unfold Nfft; simpl; lia|].
    rewrite (generated_first_sample _ _ _ _ _ Hs Hpos). lra. }
  destruct (window_sampler_returns (t s) (x_sum s) (envelope s) window 40)
    as [frs [Hfr [Hn HF]]]; try assumption; try lia.
  unfold window_sampler in Hfr.
  destruct (step_of (len (t s)) window 40) as [step|e] eqn:Est;
    cbn [bind] in Hfr; [|discriminate].
  unfold main. rewrite Hs. cbn [bind].
  rewrite (write_audio_returns fl s fs) by lia. cbn [bind].
  rewrite (short_window_returns _ _ _ _ _ _ Hs). cbn [bind].
  rewrite (beats_returns _ _ _ _ _ _ Hs). cbn [bind].
  unfold spectrum_figure. rewrite Hsp. cbn [bind].
  rewrite plt_plot_same by (apply (spectrum_lengths _ _ _ _ Hsp)).
  cbn [bind fst]. fold window. rewrite Est. cbn [bind].
  unfold py_div. destruct (Req_EM_T (IZR fs) 0); [lra|]. cbn [bind].
  rewrite Hfr. cbn [bind].
  eexists. split; [reflexivity|].
  cbn [r_signals r_audio r_spectrum r_xlim r_frames].
  split; [reflexivity|].
  assert (Hup : (len (t s) < 2147483629)%Z).
  { rewrite Hl. destruct (Int_part_bounds (IZR fs * duration)) as [B _].
    apply lt_IZR. lra. }
  split; [lia|]. split; [exact Hup|].
  split; [apply write_audio_returns; lia|].
  cbn [beat_signal frames].
  split.
  { rewrite tobytes_length. unfold int_data_of.
    rewrite length_map, scaled_length, Lx. reflexivity. }
  split; [exact Hone|]. split; [reflexivity|]. split; [exact Hn | exact HF].
Qed.

Lemma main_returns_witness :
  exists r, main (fun x => x) 44100 6 440 444 = Returned r /\
    len (r_frames r) = 40%Z.
Proof.
  destruct (main_returns (fun x => x) exact_rounding 44100 6 440 444)
    as [r [H1 [_ [_ [_ [_ [_ [_ [_ [H2 _]]]]]]]]]]; [lia | lra | lra |].
  exists r. split; [exact H1 | exact H2].
Defined.

(** With a positive rate below [2^31] and a duration of at most half a
    sample the script writes three audio files without a frame, draws its
    figures with undefined magnitudes, and then stops in the animation: the
    first call of [update] indexes the empty grid. *)
Theorem main_on_empty_grid (fl : R -> R) (fs : Z) (duration f1 f2 : R) :
  (0 < fs < 2147483648)%Z -> 0 <= IZR fs * duration <= 1 / 2 ->
  main fl fs duration f1 f2 = Raised IndexError /\
  generate (IZR fs) duration f1 f2
  = Returned (mkSignals [] [] [] [] (Rabs (f2 - f1)) []) /\
  write_audio fl (mkSignals [] [] [] [] (Rabs (f2 - f1)) []) fs
  = Returned (mkAudio (mkWav 1 2 fs []) (mkWav 1 2 fs []) (mkWav 1 2 fs [])) /\
  exists sp, spectrum (IZR fs) Nfft [] = Returned sp /\
             Forall (fun a => a = NaN) (amp sp).
Proof.
  intros [Hfs _] Hd.
  assert (HfsR : 0 < IZR fs) by (apply IZR_lt, Hfs).
  assert (E0 : py_int (IZR fs * duration) = 0%Z).
  { rewrite py_int_nonneg by lra. apply Int_part_unique. simpl. lra. }
  assert (Hg : generate (IZR fs) duration f1 f2
               = Returned (mkSignals [] [] [] [] (Rabs (f2 - f1)) [])).
  { unfold generate, time_grid. rewrite E0. reflexivity. }
  assert (Ha : write_audio fl (mkSignals [] [] [] [] (Rabs (f2 - f1)) []) fs
               = Returned (mkAudio (mkWav 1 2 fs []) (mkWav 1 2 fs [])
                                   (mkWav 1 2 fs []))).
  { rewrite write_audio_returns by exact Hfs. reflexivity. }
  assert (Hsp : spectrum (IZR fs) Nfft []
                = Returned (mkSpectrum
                     (map (fun k => INR k * (1 / (IZR Nfft * (1 / IZR fs))))
                          (seq 0 (Z.to_nat Nfft / 2 + 1)))
                     (map (fun _ => NaN) (seq 0 (Z.to_nat Nfft / 2 + 1))))).
  { apply spectrum_zero_window; [lra | apply Nfft_pos |].
    intros i _. destruct i; reflexivity. }
  split; [|split; [exact Hg|split; [exact Ha|]]].
  - unfold main. rewrite Hg. cbn [bind]. rewrite Ha. cbn [bind].
    rewrite (short_window_returns _ _ _ _ _ _ Hg). cbn [bind].
    rewrite (beats_returns _ _ _ _ _ _ Hg). cbn [bind].
    unfold spectrum_figure. cbn [x_sum]. rewrite Hsp. cbn [bind].
    rewrite plt_plot_same by (apply (spectrum_lengths _ _ _ _ Hsp)).
    cbn [bind fst t x_sum envelope].
    unfold step_of. cbn [Z.eqb bind].
    unfold py_div. destruct (Req_EM_T (IZR fs) 0); [lra|]. cbn [bind].
    destruct (py_range_pos 40 ltac:(lia)) as [l ->]. cbn [mapM].
    unfold update at 1.
    destruct (frame_bounds _ _ _ _) as [i j].
    rewrite py_index_outside; [reflexivity|].
    unfold len. simpl. lia.
  - eexists. split; [exact Hsp|]. cbn [amp].
    apply Forall_forall. intros a Hin. apply in_map_iff in Hin.
    destruct Hin as [k [<- _]]. reflexivity.
Qed.

Lemma main_on_empty_grid_witness :
  main (fun x => x) 44100 0 440 444 = Raised IndexError.
Proof.
  apply (main_on_empty_grid (fun x => x) 44100 0 440 444); [lia | lra].
Defined.

(** ** Beats on the grid *)

Lemma envelope_at_shift (d p ti : R) :
  d * p = 1 -> envelope_at d (ti + p) = envelope_at d ti.
Proof.
  intros H. unfold envelope_at.
  replace (PI * d * (ti + p)) with (PI * d * ti + PI * (d * p)) by ring.
  rewrite H, Rmult_1_r, neg_cos, Rabs_Ropp. reflexivity.
Qed.

(** The envelope array repeats with the beat: when [P] grid steps last
    exactly one beat period, [P * h * delta_f = 1], sample [i + P] of the
    envelope equals sample [i]. *)
Theorem envelope_repeats_on_grid
  (fs duration f1 f2 : R) (s : signals) (P : nat) :
  generate fs duration f1 f2 = Returned s ->
  INR P * (duration / IZR (len (t s))) * delta_f s = 1 ->
  forall i, (i + P < length (t s))%nat ->
    nth (i + P) (envelope s) 0 = nth i (envelope s) 0.
Proof.
  intros H HP i Hi.
  destruct (generate_fields _ _ _ _ _ H) as [_ [_ [_ [_ [Ee Hg]]]]].
  unfold time_grid in Hg. destruct (linspace0_inv _ _ _ Hg) as [_ [Hl Hn]].
  rewrite <- Hl in Hn.
  rewrite Ee. unfold envelope_of.
  rewrite !(nth_map_R (envelope_at (delta_f s))) by lia.
  rewrite (Hn (i + P)%nat Hi), (Hn i) by lia.
  rewrite plus_INR, Rmult_plus_distr_r.
  apply envelope_at_shift. lra.
Qed.

Lemma envelope_repeats_on_grid_witness :
  nth (0 + 2)
      (envelope_of (Rabs (2 - 0))
         [0 * (1 / 4); 1 * (1 / 4); (1 + 1) * (1 / 4); (1 + 1 + 1) * (1 / 4)])
      0
  = nth 0
      (envelope_of (Rabs (2 - 0))
         [0 * (1 / 4); 1 * (1 / 4); (1 + 1) * (1 / 4); (1 + 1 + 1) * (1 / 4)])
      0.
Proof.
  apply (envelope_repeats_on_grid 4 1 0 2 _ 2 generate_four_points).
  - cbn [t delta_f]. unfold len. cbn [length Z.of_nat Pos.of_succ_nat Pos.succ].
    rewrite Rabs_pos_eq by lra. simpl. lra.
  - cbn [t length]. lia.
Defined.
